(** * Effortless Backup: catalog, tiered hashing, duplicate detection, backup executor

    A shallow embedding of the Python sources
      src/database/database_manager.py   (module [DatabaseManager])
      src/utils/hash_calculator.py       (module [HashCalculator])
      src/core/file_scanner.py           (module [FileScanner])
      src/core/backup_manager.py         (module [BackupManager])
      src/gui/main_window.py             (module [MainWindow], start_backup only)

    The SQLite table [files] is a list of rows in rowid order.  Calls into
    the operating system (os.makedirs, os.symlink, shutil.copy2) are recorded
    in a trace; whether a call succeeds is decided by the host, a function of
    the call and of the history so far.  Python exceptions are results. *)

From stdpp Require Import gmap strings list pretty.
From Stdlib Require Import ZArith Lia.

Open Scope Z_scope.

(** ** Paths

    A path is the list of its components.  The three functions below are
    os.path.relpath, os.path.join (second argument relative) and
    os.path.dirname on normalised POSIX paths. *)

Module Path.

Definition t := list string.

(** len(os.path.commonprefix([start_list, path_list])) *)
Fixpoint common (a b : t) : nat :=
  match a, b with
  | x :: a', y :: b' => if String.eqb x y then S (common a' b') else O
  | _, _ => O
  end.

(** posixpath.relpath: [pardir] * (len(start_list) - i) + path_list[i:],
    and curdir when that list is empty. *)
Definition relpath (path start : t) : t :=
  let i := common start path in
  let rel_list := replicate (length start - i)%nat ".."%string ++ drop i path in
  match rel_list with
  | [] => ["."%string]
  | _ => rel_list
  end.

Definition join (a b : t) : t := a ++ b.

Definition dirname (p : t) : t := removelast p.

End Path.

(** ** Catalog rows *)

Inductive Kind := file | folder | symlink.

Inductive Status := pending | selected | copying | success | failed.

Record Row := mkRow {
  id : Z;
  name : string;
  path : Path.t;
  size : Z;
  type : Kind;
  status : Status;
  parent_id : option Z;
  hash : option string;
  is_symlink : Z;
  content_owner_id : option Z
}.

#[global] Instance Kind_eq_dec : EqDecision Kind.
Proof. solve_decision. Defined.

#[global] Instance Status_eq_dec : EqDecision Status.
Proof. solve_decision. Defined.

Definition set_status (s : Status) (r : Row) : Row :=
  mkRow (id r) (name r) (path r) (size r) (type r) s
        (parent_id r) (hash r) (is_symlink r) (content_owner_id r).

Definition set_hash (h : option string) (r : Row) : Row :=
  mkRow (id r) (name r) (path r) (size r) (type r) (status r)
        (parent_id r) h (is_symlink r) (content_owner_id r).

Definition set_content_owner (o : option Z) (r : Row) : Row :=
  mkRow (id r) (name r) (path r) (size r) (type r) (status r)
        (parent_id r) (hash r) (is_symlink r) o.

(** ** database_manager.py

    Every method opens a connection, runs one statement and commits; a
    sqlite3.Error is caught inside the method.  The only statement that can
    fail on a well-formed table is the INSERT, on the UNIQUE path column. *)

Module DatabaseManager.

(** The table [files]. *)
Abbreviation t := (list Row).

Definition path_eqb (p q : Path.t) : bool := bool_decide (p = q).

(** SELECT * FROM files WHERE path = ?  -- fetchone *)
Fixpoint get_file_by_path (p : Path.t) (db : t) : option Row :=
  match db with
  | [] => None
  | r :: db' => if path_eqb (path r) p then Some r else get_file_by_path p db'
  end.

(** SELECT * FROM files *)
Definition get_all_files (db : t) : list Row := db.

(** AUTOINCREMENT: one more than the largest id in use. *)
Definition next_id (db : t) : Z := 1 + foldr (fun r m => Z.max (id r) m) 0 db.

(** INSERT INTO files (...) VALUES (...); the UNIQUE constraint on path
    makes the statement fail, and the method swallows the failure. *)
Definition insert_file (nm : string) (p : Path.t) (sz : Z) (file_type : Kind)
    (st : Status) (parent : option Z) (hash_value : option string)
    (is_symlink_ : Z) (owner : option Z) (db : t) : t :=
  match get_file_by_path p db with
  | Some _ => db
  | None => db ++ [mkRow (next_id db) nm p sz file_type st parent hash_value is_symlink_ owner]
  end.

Definition update_where_id (f : Row -> Row) (file_id : Z) (db : t) : t :=
  map (fun r => if id r =? file_id then f r else r) db.

(** UPDATE files SET status = ? WHERE id = ? *)
Definition update_file_status (file_id : Z) (st : Status) (db : t) : t :=
  update_where_id (set_status st) file_id db.

(** UPDATE files SET hash = ? WHERE id = ? *)
Definition update_file_hash (file_id : Z) (hash_value : option string) (db : t) : t :=
  update_where_id (set_hash hash_value) file_id db.

(** UPDATE files SET content_owner_id = ? WHERE id = ? *)
Definition update_file_content_owner (file_id : Z) (owner : Z) (db : t) : t :=
  update_where_id (set_content_owner (Some owner)) file_id db.

(** SELECT COUNT( * ) FROM files WHERE status IN ('pending', 'failed', 'copying');
    the method returns count > 0. *)
Definition check_previous_backup (db : t) : bool :=
  let count := length (filter (fun r => status r ∈ [pending; failed; copying]) db) in
  (Z.of_nat count >? 0).

End DatabaseManager.

(** ** hash_calculator.py *)

Module HashCalculator.

(** An open binary file: its bytes and the read position. *)
Record FileObj := mkFileObj { data : list Byte.byte; pos : Z }.

(** f.read(n) *)
Definition read (n : Z) (f : FileObj) : list Byte.byte * FileObj :=
  let chunk := take (Z.to_nat n) (drop (Z.to_nat (pos f)) (data f)) in
  (chunk, mkFileObj (data f) (pos f + Z.of_nat (length chunk))).

(** f.seek(offset) *)
Definition seek (offset : Z) (f : FileObj) : FileObj := mkFileObj (data f) offset.

Section WithHost.

(** hashlib.sha256: the hex digest of the bytes fed to the hasher. *)
Variable sha256_hexdigest : list Byte.byte -> string.

(** open(file_path, "rb"): the file's bytes, or None when opening raises. *)
Variable open_rb : Path.t -> option (list Byte.byte).

(** while True: chunk = f.read(4096); if not chunk: break; hasher.update(chunk)
    The hasher is the list of bytes fed so far.  None: out of fuel. *)
Fixpoint read_loop (fuel : nat) (f : FileObj) (hasher : list Byte.byte)
    : option (list Byte.byte) :=
  match fuel with
  | O => None
  | S fuel' =>
      let '(chunk, f') := read 4096 f in
      match chunk with
      | [] => Some hasher
      | _ => read_loop fuel' f' (hasher ++ chunk)
      end
  end.

(** Raises (None) when the file cannot be opened. *)
Definition _calculate_full_hash (file_path : Path.t) : option string :=
  match open_rb file_path with
  | None => None
  | Some bytes =>
      match read_loop (S (length bytes)) (mkFileObj bytes 0) [] with
      | Some hasher => Some (sha256_hexdigest hasher)
      | None => None
      end
  end.

Definition chunk_size : Z := 100 * 1024.

(** os.path.getsize is the length of the same file. *)
Definition getsize (bytes : list Byte.byte) : Z := Z.of_nat (length bytes).

(** Returns None itself on any exception. *)
Definition _calculate_partial_hash (file_path : Path.t) : option string :=
  match open_rb file_path with
  | None => None
  | Some bytes =>
      let f := mkFileObj bytes 0 in
      let '(c1, f) := read chunk_size f in
      let hasher := [] ++ c1 in
      let f := seek (Z.max 0 (getsize bytes / 2 - chunk_size / 2)) f in
      let '(c2, f) := read chunk_size f in
      let hasher := hasher ++ c2 in
      let f := seek (Z.max 0 (getsize bytes - chunk_size)) f in
      let '(c3, f) := read chunk_size f in
      let hasher := hasher ++ c3 in
      Some (sha256_hexdigest hasher)
  end.

(** The except clause turns a raise of either strategy into None. *)
Definition calculate_hash (file_path : Path.t) (file_size : Z) : option string :=
  if file_size <? 1024 * 1024 then _calculate_full_hash file_path
  else _calculate_partial_hash file_path.

(** The 100 KiB window of a file that starts at an offset. *)
Definition window (bytes : list Byte.byte) (offset : Z) : list Byte.byte :=
  take (Z.to_nat chunk_size) (drop (Z.to_nat offset) bytes).

End WithHost.

End HashCalculator.

(** ** file_scanner.py *)

Module FileScanner.

Import DatabaseManager.

(** An os.DirEntry together with what the host answers about it:
    entry.stat().st_size (None: stat raises) and os.scandir(entry.path)
    (None: scandir raises).  is_dir and is_file follow symbolic links. *)
#[warnings="-register-all"] Inductive DirEntry := mkDirEntry {
  entry_name : string;
  entry_path : Path.t;
  is_dir : bool;
  is_file : bool;
  entry_is_symlink : bool;
  st_size : option Z;
  scandir : option (list DirEntry)
}.

(** Returns the id of the entry (None on failure) and the new table.
    stat is only called when file_type is not symlink. *)
Definition add_entry_to_database (entry : DirEntry) (file_type : Kind)
    (parent : option Z) (is_symlink_ : Z) (db : t) : option Z * t :=
  let file_path := entry_path entry in
  match (if bool_decide (file_type ≠ symlink) then st_size entry else Some 0) with
  | None => (None, db)
  | Some file_size =>
      let db' := insert_file (entry_name entry) file_path file_size file_type
                   pending parent None is_symlink_ None db in
      match get_file_by_path file_path db' with
      | Some file_data => (Some (id file_data), db')
      | None => (None, db')
      end
  end.

(** scan_directory, one entry of the for loop; the recursive call is on
    the listing of the entry. *)
Fixpoint scan_entry (parent : option Z) (entry : DirEntry) (db : t) {struct entry} : t :=
  match entry with
  | mkDirEntry _ _ isd isf isl _ listing =>
      if isd then
        let '(file_id, db1) := add_entry_to_database entry folder parent 0 db in
        match listing with
        | None => db1
        | Some entries =>
            (fix loop (es : list DirEntry) (d : t) : t :=
               match es with
               | [] => d
               | e :: es' => loop es' (scan_entry file_id e d)
               end) entries db1
        end
      else if isf then snd (add_entry_to_database entry file parent 0 db)
      else if isl then snd (add_entry_to_database entry symlink parent 1 db)
      else db
  end.

(** scan_directory(path, parent_id); the argument is os.scandir(path). *)
Definition scan_directory (listing : option (list DirEntry)) (parent : option Z) (db : t) : t :=
  match listing with
  | None => db
  | Some entries => foldl (fun d e => scan_entry parent e d) db entries
  end.

Section FindDuplicates.

Variable size_threshold : Z.

(** hash_calculator.calculate_hash(file_path, file_size); it returns
    None instead of raising. *)
Variable calculate_hash : Path.t -> Z -> option string.

(** The test of the for loop's body. *)
Definition eligible (f : Row) : bool :=
  bool_decide (type f = file) && (size f >? size_threshold).

(** One iteration: the dictionary [hashes] and the table. *)
Definition find_duplicates_step (acc : gmap (option string) Z * t) (f : Row)
    : gmap (option string) Z * t :=
  let '(hashes, db) := acc in
  if eligible f then
    let hash_value := calculate_hash (path f) (size f) in
    let db := update_file_hash (id f) hash_value db in
    match hashes !! hash_value with
    | Some original_file_id =>
        (hashes, update_file_content_owner (id f) original_file_id db)
    | None => (<[hash_value := id f]> hashes, db)
    end
  else acc.

Definition find_duplicates_loop (files : list Row) (acc : gmap (option string) Z * t)
    : gmap (option string) Z * t :=
  foldl find_duplicates_step acc files.

Definition find_duplicates (db : t) : t :=
  snd (find_duplicates_loop (get_all_files db) (∅, db)).

End FindDuplicates.

End FileScanner.

(** ** The host and the effects of the executor *)

Inductive Exn := OSError | OtherError.

Inductive Result (A : Type) := Ok (a : A) | Raise (e : Exn).
Arguments Ok {A} a.
Arguments Raise {A} e.

Inductive OsCall :=
| Makedirs (p : Path.t)                (* os.makedirs(p, exist_ok=True) *)
| Symlink (target link : Path.t)       (* os.symlink(target, link) *)
| Copy2 (src dst : Path.t).            (* shutil.copy2(src, dst) *)

Inductive Outcome := Done | Fails (e : Exn).

Abbreviation Event := (OsCall * Outcome)%type.

#[global] Instance Exn_eq_dec : EqDecision Exn.
Proof. solve_decision. Defined.

#[global] Instance OsCall_eq_dec : EqDecision OsCall.
Proof. solve_decision. Defined.

#[global] Instance Outcome_eq_dec : EqDecision Outcome.
Proof. solve_decision. Defined.

Record Host := mkHost {
  (** the outcome of a call, given the calls made so far *)
  os_outcome : list Event -> OsCall -> Outcome;
  (** shutil.disk_usage(path): (total, used, free), None when it raises *)
  disk_usage : option Path.t -> option (Z * Z * Z);
  (** os.curdir, the start of relpath when MOUNTED_PATH is not set *)
  cwd : Path.t;
  (** what a symbolic link of the source tree points at *)
  readlink : Path.t -> option Path.t;
  (** sys.getrecursionlimit() *)
  recursion_limit : nat
}.

Record Config := mkConfig {
  BACKUP_DESTINATION : option Path.t;
  MOUNTED_PATH : option Path.t
}.

Record World := mkWorld {
  db : DatabaseManager.t;
  trace : list Event
}.

Definition M (A : Type) : Type := World -> Result A * World.

Definition ret {A} (a : A) : M A := fun w => (Ok a, w).

Definition raise {A} (e : Exn) : M A := fun w => (Raise e, w).

Definition bind {A B} (m : M A) (k : A -> M B) : M B :=
  fun w => match m w with
           | (Ok a, w') => k a w'
           | (Raise e, w') => (Raise e, w')
           end.

(** try: m  except <e>: handler e *)
Definition try_except {A} (m : M A) (handler : Exn -> M A) : M A :=
  fun w => match m w with
           | (Ok a, w') => (Ok a, w')
           | (Raise e, w') => handler e w'
           end.

Notation "x <- m ;; k" := (bind m (fun x => k))
  (at level 100, m at next level, right associativity).
Notation "m ;;; k" := (bind m (fun _ => k))
  (at level 100, right associativity).

Definition on_db (f : DatabaseManager.t -> DatabaseManager.t) : M unit :=
  fun w => (Ok tt, mkWorld (f (db w)) (trace w)).

(** ** backup_manager.py *)

Module BackupManager.

Import DatabaseManager.

Section WithHost.

Variable host : Host.
Variable config : Config.

(** A call into the operating system: recorded, then done or raised. *)
Definition os_call (c : OsCall) : M unit :=
  fun w =>
    let o := os_outcome host (trace w) c in
    let w' := mkWorld (db w) (trace w ++ [(c, o)]) in
    match o with
    | Done => (Ok tt, w')
    | Fails e => (Raise e, w')
    end.

(** os.path.relpath(p, self.config.get("MOUNTED_PATH")); a start of
    None is os.curdir. *)
Definition relpath_mounted (p : Path.t) : Path.t :=
  Path.relpath p (default (cwd host) (MOUNTED_PATH config)).

(** os.path.join(backup_destination, rel): a TypeError when the
    destination is None. *)
Definition join_destination (backup_destination : option Path.t) (rel : Path.t)
    : M Path.t :=
  match backup_destination with
  | Some d => ret (Path.join d rel)
  | None => raise OtherError
  end.

Definition get_free_space (p : option Path.t) : Z :=
  match disk_usage host p with
  | Some (_, _, free) => free
  | None => 0
  end.

(** file.get("content_owner_id") as a condition: None and 0 are false. *)
Definition has_content_owner (f : Row) : bool :=
  match content_owner_id f with
  | Some o => negb (o =? 0)
  | None => false
  end.

(** copy_file and create_symlink call each other.  [depth] is the
    number of frames left; running out of them is a RecursionError.
    The handler of copy_file only logs and re-raises. *)
Fixpoint copy_file (depth : nat) (f : Row) (file_path dest_path : Path.t)
    (backup_destination : option Path.t) {struct depth} : M unit :=
  match depth with
  | O => raise OtherError
  | S depth' =>
      os_call (Makedirs (Path.dirname dest_path)) ;;;
      if has_content_owner f then
        fun w =>
          match get_file_by_path file_path (db w) with
          | Some original_file =>
              (original_dest_path <-
                 join_destination backup_destination
                   (relpath_mounted (path original_file)) ;;
               create_symlink depth' f original_dest_path dest_path) w
          | None => os_call (Copy2 file_path dest_path) w
          end
      else os_call (Copy2 file_path dest_path)
  end
with create_symlink (depth : nat) (f : Row) (target_path link_path : Path.t)
    {struct depth} : M unit :=
  match depth with
  | O => raise OtherError
  | S depth' =>
      try_except
        (os_call (Makedirs (Path.dirname link_path)) ;;;
         os_call (Symlink target_path link_path))
        (fun e =>
           match e with
           | OSError =>
               copy_file depth' f target_path link_path (BACKUP_DESTINATION config)
           | OtherError => raise OtherError
           end)
  end.

(** os.makedirs(dest_path, exist_ok=True); the handler re-raises. *)
Definition copy_folder (f : Row) (file_path dest_path : Path.t) : M unit :=
  os_call (Makedirs dest_path).

(** The destination path that backup_file computes for an entry when
    the destination is [d]. *)
Definition dest_path_of (d : Path.t) (f : Row) : Path.t :=
  Path.join d (relpath_mounted (path f)).

(** The status that backup_file records for the outcome of its try. *)
Definition status_of (res : Result unit) : Status :=
  match res with Ok _ => success | Raise _ => failed end.

(** The body of the try of backup_file, before the status update. *)
Definition materialize (f : Row) (file_path dest_path : Path.t)
    (backup_destination : option Path.t) : M unit :=
  match type f with
  | file => copy_file (recursion_limit host) f file_path dest_path backup_destination
  | folder => copy_folder f file_path dest_path
  | symlink => create_symlink (recursion_limit host) f file_path dest_path
  end.

Definition backup_file (f : Row) (backup_destination : option Path.t) : M unit :=
  let file_path := path f in
  dest_path <- join_destination backup_destination (relpath_mounted file_path) ;;
  on_db (update_file_status (id f) copying) ;;;
  try_except
    (materialize f file_path dest_path backup_destination ;;;
     on_db (update_file_status (id f) success))
    (fun _ => on_db (update_file_status (id f) failed)).

(** The for loop of backup_files; progress reporting and the sleep
    between entries do not touch the catalog or the file system. *)
Fixpoint backup_files_loop (files : list Row) (backup_destination : option Path.t)
    : M unit :=
  match files with
  | [] => ret tt
  | f :: files' =>
      backup_file f backup_destination ;;;
      backup_files_loop files' backup_destination
  end.

Definition backup_files (files : list Row) : M unit :=
  let backup_destination := BACKUP_DESTINATION config in
  backup_files_loop files backup_destination.

End WithHost.

End BackupManager.

(** ** main_window.py, start_backup *)

Module MainWindow.

Section WithHost.

Variable host : Host.
Variable config : Config.

(** self.db_manager.get_selected_files(): self.db_manager is the
    DatabaseManager that main.py hands to the window, and that class
    defines no method of this name (FileTree does); the attribute lookup
    raises AttributeError. *)
Definition get_selected_files : M (list Row) := raise OtherError.

(** sum(file["size"] for file in selected_files) *)
Definition total_size (selected_files : list Row) : Z :=
  foldl (fun acc f => acc + size f) 0 selected_files.

(** The statements of start_backup that follow its first one, for the
    list that statement binds.  The two early returns show a message box
    and do nothing else. *)
Definition start_backup_from (selected_files : list Row) : M unit :=
  match selected_files with
  | [] => ret tt
  | _ =>
      let total_size := total_size selected_files in
      let backup_destination := BACKUP_DESTINATION config in
      let free_space := BackupManager.get_free_space host backup_destination in
      if free_space <? total_size then ret tt
      else BackupManager.backup_files host config selected_files
  end.

Definition start_backup : M unit :=
  selected_files <- get_selected_files ;;
  start_backup_from selected_files.

End WithHost.

End MainWindow.

(** ** Predicates on catalogs *)

(** A catalog as the scanner leaves it: nothing hashed, nothing linked. *)
Definition fresh (d : DatabaseManager.t) : Prop :=
  forall r, r ∈ d -> hash r = None /\ content_owner_id r = None.

(** The ownership shape of a catalog: the rows that carry a hash value h
    start with one row that has no owner, and each later row with h has
    that first row, and not itself, as its owner. *)
Definition canonical_form (d : DatabaseManager.t) : Prop :=
  forall (h : string) (r : Row),
    r ∈ d -> hash r = Some h ->
    exists (l1 : list Row) (c : Row) (l2 : list Row),
      d = l1 ++ c :: l2 /\
      hash c = Some h /\
      content_owner_id c = None /\
      (forall x, x ∈ l1 -> hash x <> Some h) /\
      (forall x, x ∈ l2 -> hash x = Some h ->
                 content_owner_id x = Some (id c) /\ id x <> id c).

(** The statuses at which a backup pass leaves an entry. *)
Definition final_status (s : Status) : Prop := s = success \/ s = failed.

(** The catalog after a pass over [files]: a row whose id is selected has
    its status replaced by [sigma] of its id, every other row is as before. *)
Definition restatus (files : list Row) (sigma : Z -> Status)
    (d : DatabaseManager.t) : DatabaseManager.t :=
  map (fun r => if bool_decide (id r ∈ map id files)
                then set_status (sigma (id r)) r else r) d.

(** Symbolic links of the catalog have size 0. *)
Definition symlinks_empty (d : DatabaseManager.t) : Prop :=
  forall r, r ∈ d -> type r = symlink -> size r = 0.

(** What holds, inside the loop of find_duplicates on a fresh catalog, of
    the dictionary [hashes] and of the rows handled so far. *)
Record find_duplicates_inv (size_threshold : Z)
    (hashes : gmap (option string) Z) (done : DatabaseManager.t) : Prop := {
  inv_owner_first :
    forall k o, hashes !! k = Some o ->
      exists l1 c l2,
        done = l1 ++ c :: l2 /\ id c = o /\
        FileScanner.eligible size_threshold c = true /\ hash c = k /\
        content_owner_id c = None /\
        (forall x, x ∈ l1 -> FileScanner.eligible size_threshold x = true -> hash x <> k);
  inv_eligible :
    forall x, x ∈ done -> FileScanner.eligible size_threshold x = true ->
      exists o, hashes !! hash x = Some o /\
        ((content_owner_id x = None /\ id x = o) \/
         (content_owner_id x = Some o /\ id x <> o));
  inv_skipped :
    forall x, x ∈ done -> FileScanner.eligible size_threshold x = false ->
      hash x = None /\ content_owner_id x = None
}.

(** The catalog [d'] is [d] followed by rows as add_entry_to_database
    creates them: pending, not hashed, not linked. *)
Definition scan_extends (d d' : DatabaseManager.t) : Prop :=
  exists added : list Row,
    d' = d ++ added /\
    forall r, r ∈ added ->
      status r = pending /\ hash r = None /\ content_owner_id r = None.

(** The two keys of the table: paths and ids are pairwise distinct. *)
Definition unique_keys (d : DatabaseManager.t) : Prop :=
  NoDup (map path d) /\ NoDup (map id d).

(** Pre-order of the parent references: every row from position [n0] on
    has as parent_id the id [p0] given to the scan, nothing, or the id of
    a row that stands before it in the table. *)
Definition parents_first (p0 : option Z) (n0 : nat) (d : DatabaseManager.t) : Prop :=
  forall (i : nat) (r : Row),
    d !! i = Some r -> (n0 <= i)%nat ->
    parent_id r = p0 \/ parent_id r = None \/
    exists (j : nat) (r' : Row),
      (j < i)%nat /\ d !! j = Some r' /\ parent_id r = Some (id r').

(** An entry of a scanned tree, with everything below it, has nothing
    left to add to the catalog [d]: its path is in the catalog already, or
    its stat raises (for an entry that is not scanned as a symlink). *)
Fixpoint settled (d : DatabaseManager.t) (entry : FileScanner.DirEntry) {struct entry} : Prop :=
  match entry with
  | FileScanner.mkDirEntry _ p isd isf isl st listing =>
      if isd then
        (st = None \/ p ∈ map path d) /\
        match listing with
        | None => True
        | Some entries =>
            (fix all (es : list FileScanner.DirEntry) : Prop :=
               match es with
               | [] => True
               | e :: es' => settled d e /\ all es'
               end) entries
        end
      else if isf then st = None \/ p ∈ map path d
      else if isl then p ∈ map path d
      else True
  end.

(** A row with its two detection columns blanked. *)
Definition clear_detection (r : Row) : Row :=
  set_content_owner None (set_hash None r).

(** The loop of find_duplicates read row by row, for a table with unique
    ids: what one iteration leaves in the row it handles, what it leaves in
    the dictionary, and the rows after the iterations over [rest]. *)
Definition detect_row (size_threshold : Z) (calculate_hash : Path.t -> Z -> option string)
    (hashes : gmap (option string) Z) (r : Row) : Row :=
  if FileScanner.eligible size_threshold r then
    let h := calculate_hash (path r) (size r) in
    match hashes !! h with
    | Some o => set_content_owner (Some o) (set_hash h r)
    | None => set_hash h r
    end
  else r.

Definition detect_dict (size_threshold : Z) (calculate_hash : Path.t -> Z -> option string)
    (hashes : gmap (option string) Z) (r : Row) : gmap (option string) Z :=
  if FileScanner.eligible size_threshold r then
    let h := calculate_hash (path r) (size r) in
    match hashes !! h with
    | Some _ => hashes
    | None => <[h := id r]> hashes
    end
  else hashes.

Fixpoint detect_rows (size_threshold : Z) (calculate_hash : Path.t -> Z -> option string)
    (hashes : gmap (option string) Z) (rest : list Row) : list Row :=
  match rest with
  | [] => []
  | r :: rest' =>
      detect_row size_threshold calculate_hash hashes r ::
      detect_rows size_threshold calculate_hash
        (detect_dict size_threshold calculate_hash hashes r) rest'
  end.

(** Where a call into the operating system writes, against the
    destination path of the entry being backed up: the call creates that
    path or its parent directory, or puts a link or a copy at it. *)
Definition writes_at (dest_path : Path.t) (c : OsCall) : Prop :=
  match c with
  | Makedirs p => p = dest_path \/ p = Path.dirname dest_path
  | Symlink _ link_path => link_path = dest_path
  | Copy2 _ dst => dst = dest_path
  end.

(** The world [w'] has the trace of [w] followed by calls that all
    satisfy [P]: nothing recorded is removed, and only such calls are made. *)
Definition trace_extends (P : OsCall -> Prop) (w w' : World) : Prop :=
  exists new : list Event,
    trace w' = trace w ++ new /\ forall ev, ev ∈ new -> P ev.1.

(** ** Concrete catalogs, files and hosts used in the examples *)

Module Sample.

Open Scope string_scope.

(** A stand-in for SHA-256 that can be run: the decimal sum of
    (1 + byte) over the message. *)
Definition toy_digest (l : list Byte.byte) : string :=
  pretty (foldl (fun acc b => acc + 1 + Byte.to_N b)%N 0%N l).

Definition zeros (n : Z) : list Byte.byte := replicate (Z.to_nat n) Byte.x00.

(** Three small files, two of them with the same content. *)
Definition small_row_a : Row :=
  mkRow 1 "a" ["mnt"; "x"; "a"] 3 file pending None None 0 None.
Definition small_row_b : Row :=
  mkRow 2 "b" ["mnt"; "y"; "b"] 3 file pending None None 0 None.
Definition small_catalog : DatabaseManager.t := [small_row_a; small_row_b].

Definition small_open (p : Path.t) : option (list Byte.byte) :=
  if bool_decide (p = ["mnt"; "x"; "a"]) then Some [Byte.x01; Byte.x02; Byte.x03]
  else if bool_decide (p = ["mnt"; "y"; "b"]) then Some [Byte.x01; Byte.x02; Byte.x03]
  else None.

(** No file can be opened. *)
Definition unreadable (p : Path.t) : option (list Byte.byte) := None.

(** Three files of zero bytes: one of exactly 1 MiB, two of 1 MiB + 1. *)
Definition big_row_a : Row :=
  mkRow 1 "a" ["mnt"; "a"] 1048576 file pending None None 0 None.
Definition big_row_b : Row :=
  mkRow 2 "b" ["mnt"; "b"] 1048577 file pending None None 0 None.
Definition big_row_c : Row :=
  mkRow 3 "c" ["mnt"; "c"] 1048577 file pending None None 0 None.
Definition big_catalog : DatabaseManager.t := [big_row_a; big_row_b; big_row_c].

Definition big_open (p : Path.t) : option (list Byte.byte) :=
  if bool_decide (p = ["mnt"; "a"]) then Some (zeros 1048576)
  else if bool_decide (p = ["mnt"; "b"]) then Some (zeros 1048577)
  else if bool_decide (p = ["mnt"; "c"]) then Some (zeros 1048577)
  else None.

(** Detection with threshold 0, then again with threshold 1 MiB. *)
Definition big_first_run : DatabaseManager.t :=
  FileScanner.find_duplicates 0
    (HashCalculator.calculate_hash toy_digest big_open) big_catalog.
Definition big_second_run : DatabaseManager.t :=
  FileScanner.find_duplicates (1024 * 1024)
    (HashCalculator.calculate_hash toy_digest big_open) big_first_run.

(** A scanned folder "docs" (4096 bytes of directory metadata) holding a
    12-byte file and a dangling symbolic link. *)
Definition docs_listing : list FileScanner.DirEntry :=
  [FileScanner.mkDirEntry "docs" ["mnt"; "docs"] true false false (Some 4096)
     (Some [FileScanner.mkDirEntry "n.txt" ["mnt"; "docs"; "n.txt"]
              false true false (Some 12) None;
            FileScanner.mkDirEntry "dangling" ["mnt"; "docs"; "dangling"]
              false false true None None])].

(** Executor samples: destination /bak, scanned mount /mnt. *)
Definition config_bak : Config := mkConfig (Some ["bak"]) (Some ["mnt"]).

(** Every call succeeds; 60 bytes free. *)
Definition host_ok : Host :=
  mkHost (fun _ _ => Done) (fun _ => Some (100, 40, 60)) ["home"] (fun _ => None) 1000.

(** Copying /mnt/x/a fails, everything else succeeds. *)
Definition host_copy_a_fails : Host :=
  mkHost (fun _ c => match c with
                     | Copy2 src _ =>
                         if bool_decide (src = ["mnt"; "x"; "a"]) then Fails OSError else Done
                     | _ => Done
                     end)
         (fun _ => Some (100, 40, 60)) ["home"] (fun _ => None) 1000.

(** A symbolic link /mnt/l in the source tree that points at /mnt/t. *)
Definition link_row : Row :=
  mkRow 3 "l" ["mnt"; "l"] 0 symlink pending None None 1 None.

Definition link_target (p : Path.t) : option Path.t :=
  if bool_decide (p = ["mnt"; "l"]) then Some ["mnt"; "t"] else None.

Definition host_link : Host :=
  mkHost (fun _ _ => Done) (fun _ => Some (100, 40, 60)) ["home"] link_target 1000.

(** The destination cannot hold symbolic links: os.symlink raises OSError. *)
Definition host_no_symlinks : Host :=
  mkHost (fun _ c => match c with Symlink _ _ => Fails OSError | _ => Done end)
         (fun _ => Some (100, 40, 60)) ["home"] link_target 1000.

(** The catalog after duplicate detection on the two small files. *)
Definition small_detected : DatabaseManager.t :=
  FileScanner.find_duplicates 0
    (HashCalculator.calculate_hash toy_digest small_open) small_catalog.

(** Three files of 50 MB in total, and a destination with 10 MB free. *)
Definition fifty_mb_catalog : DatabaseManager.t :=
  [mkRow 1 "v1" ["mnt"; "v1"] 20000000 file selected None None 0 None;
   mkRow 2 "v2" ["mnt"; "v2"] 20000000 file selected None None 0 None;
   mkRow 3 "v3" ["mnt"; "v3"] 10000000 file selected None None 0 None].

Definition host_ten_mb_free : Host :=
  mkHost (fun _ _ => Done) (fun _ => Some (100000000, 90000000, 10000000))
         ["home"] (fun _ => None) 1000.

(** shutil.disk_usage raises for every path. *)
Definition host_unqueryable : Host :=
  mkHost (fun _ _ => Done) (fun _ => None) ["home"] (fun _ => None) 1000.

(** An empty file. *)
Definition empty_row : Row :=
  mkRow 4 "empty" ["mnt"; "empty"] 0 file selected None None 0 None.

(** No BACKUP_DESTINATION in config.json. *)
Definition config_no_destination : Config := mkConfig None (Some ["mnt"]).

(** The folder /mnt/docs. *)
Definition docs_row : Row :=
  mkRow 5 "docs" ["mnt"; "docs"] 4096 folder selected None None 0 None.

(** The row of b after duplicate detection: a duplicate of row 1. *)
Definition duplicate_row_b : Row :=
  set_content_owner (Some 1) (set_hash (Some "9") small_row_b).

(** BACKUP_DESTINATION set to the mounted path itself. *)
Definition config_into_mount : Config := mkConfig (Some ["mnt"]) (Some ["mnt"]).

End Sample.

(** * Properties *)

(** ** The hash classifier *)

Section HashFacts.

Import HashCalculator.

Variable sha256_hexdigest : list Byte.byte -> string.
Variable open_rb : Path.t -> option (list Byte.byte).

Lemma take_chunk_nil (n : nat) (l : list Byte.byte) :
  (0 < n)%nat -> take n l = [] -> l = [].
Proof.
  intros Hn Ht. destruct l as [|b l]; [reflexivity|].
  destruct n as [|n]; [lia|]. discriminate Ht.
Qed.

Lemma take_chunk_rest (n : nat) (l : list Byte.byte) :
  take n l ++ drop (length (take n l)) l = l.
Proof.
  rewrite length_take. destruct (Nat.le_gt_cases n (length l)) as [Hle|Hgt].
  - rewrite Nat.min_l by exact Hle. apply take_drop.
  - rewrite Nat.min_r by lia. rewrite take_ge by lia.
    rewrite drop_all. apply app_nil_r.
Qed.

(** The read loop feeds the hasher everything from the read position to
    the end of the file, given one unit of fuel per remaining byte. *)
Lemma read_loop_all (fuel : nat) :
  forall (bytes : list Byte.byte) (p : nat) (hasher : list Byte.byte),
    (p <= length bytes)%nat ->
    (length bytes - p < fuel)%nat ->
    read_loop fuel (mkFileObj bytes (Z.of_nat p)) hasher = Some (hasher ++ drop p bytes).
Proof.
  induction fuel as [|fuel IH]; intros bytes p hasher Hp Hfuel; [lia|].
  cbn [read_loop]. unfold read. cbn [pos data]. rewrite Nat2Z.id.
  assert (Hn : (0 < Z.to_nat 4096)%nat) by lia.
  remember (Z.to_nat 4096) as n eqn:En. clear En.
  pose proof (take_chunk_rest n (drop p bytes)) as Hrest.
  destruct (take n (drop p bytes)) as [|b chunk] eqn:Echunk.
  - apply take_chunk_nil in Echunk; [|exact Hn]. rewrite Echunk.
    rewrite app_nil_r. reflexivity.
  - assert (Hlen : (length (b :: chunk) <= length bytes - p)%nat).
    { rewrite <- Echunk, length_take, length_drop. lia. }
    rewrite <- Nat2Z.inj_add.
    rewrite IH.
    + rewrite <- app_assoc. f_equal. f_equal.
      rewrite <- drop_drop. exact Hrest.
    + cbn [length] in *. lia.
    + cbn [length] in *. lia.
Qed.

Lemma full_hash_whole (file_path : Path.t) (bytes : list Byte.byte) :
  open_rb file_path = Some bytes ->
  _calculate_full_hash sha256_hexdigest open_rb file_path = Some (sha256_hexdigest bytes).
Proof.
  intros Hopen. unfold _calculate_full_hash. rewrite Hopen.
  pose proof (read_loop_all (S (length bytes)) bytes 0 []) as Hloop.
  change (Z.of_nat 0) with 0 in Hloop. rewrite Hloop by lia.
  reflexivity.
Qed.

Lemma partial_hash_windows (file_path : Path.t) (bytes : list Byte.byte) :
  open_rb file_path = Some bytes ->
  _calculate_partial_hash sha256_hexdigest open_rb file_path =
    Some (sha256_hexdigest
            (window bytes 0
             ++ window bytes (Z.max 0 (getsize bytes / 2 - chunk_size / 2))
             ++ window bytes (Z.max 0 (getsize bytes - chunk_size)))).
Proof.
  intros Hopen. unfold _calculate_partial_hash. rewrite Hopen.
  unfold read, seek, window. cbn [pos data].
  rewrite app_nil_l, <- app_assoc. reflexivity.
Qed.

Lemma window_length (bytes : list Byte.byte) (offset : Z) :
  0 <= offset -> offset + chunk_size <= getsize bytes ->
  Z.of_nat (length (window bytes offset)) = chunk_size.
Proof.
  unfold window, getsize. intros H0 Hle.
  rewrite length_take, length_drop.
  assert (0 <= chunk_size) by (unfold chunk_size; lia). lia.
Qed.

End HashFacts.

(** ** The catalog *)

Section CatalogFacts.

Import DatabaseManager.

Lemma update_where_id_lookup (g : Row -> Row) (k : Z) (d : t) (i : nat) :
  update_where_id g k d !! i = (fun r => if id r =? k then g r else r) <$> d !! i.
Proof. unfold update_where_id. apply (list_lookup_fmap _ d i). Qed.

Lemma update_where_id_other (g : Row -> Row) (k : Z) (d : t) :
  (forall r, r ∈ d -> id r <> k) ->
  update_where_id g k d = d.
Proof.
  intros Hne. unfold update_where_id.
  induction d as [|r d IH]; [reflexivity|]. cbn [map].
  rewrite IH by (intros x Hx; apply Hne; right; exact Hx).
  destruct (Z.eqb_spec (id r) k) as [E|_]; [|reflexivity].
  exfalso. apply (Hne r); [left|exact E].
Qed.

Lemma update_where_id_app (g : Row -> Row) (k : Z) (d1 d2 : t) :
  update_where_id g k (d1 ++ d2) = update_where_id g k d1 ++ update_where_id g k d2.
Proof. unfold update_where_id. apply map_app. Qed.

(** With unique ids, UPDATE ... WHERE id = ? rewrites exactly one row. *)
Lemma update_where_id_middle (g : Row -> Row) (done rest : t) (f : Row) :
  NoDup (map id (done ++ f :: rest)) ->
  update_where_id g (id f) (done ++ f :: rest) = done ++ g f :: rest.
Proof.
  intros Hnd. rewrite map_app in Hnd. cbn [map] in Hnd.
  apply NoDup_app in Hnd as (_ & Hdisj & Hnd2).
  apply NoDup_cons in Hnd2 as [Hnotin _].
  rewrite update_where_id_app.
  rewrite update_where_id_other.
  - f_equal. unfold update_where_id at 1. cbn [map]. rewrite Z.eqb_refl. f_equal.
    apply update_where_id_other.
    intros r Hr E. apply Hnotin. rewrite <- E.
    apply list_elem_of_fmap. exists r. split; [reflexivity|exact Hr].
  - intros r Hr E. apply (Hdisj (id r)).
    + apply list_elem_of_fmap. exists r. split; [reflexivity|exact Hr].
    + rewrite E. left.
Qed.

Lemma unique_id_row (d : t) (r1 r2 : Row) :
  NoDup (map id d) -> r1 ∈ d -> r2 ∈ d -> id r1 = id r2 -> r1 = r2.
Proof.
  induction d as [|x d IH]; intros Hnd H1 H2 E.
  - inversion H1.
  - cbn [map] in Hnd. apply NoDup_cons in Hnd as [Hx Hnd].
    apply elem_of_cons in H1 as [->|H1]; apply elem_of_cons in H2 as [->|H2].
    + reflexivity.
    + exfalso. apply Hx. rewrite E. apply list_elem_of_fmap. eauto.
    + exfalso. apply Hx. rewrite <- E. apply list_elem_of_fmap. eauto.
    + apply IH; assumption.
Qed.

End CatalogFacts.

(** ** Duplicate detection *)

Section FindDuplicatesFacts.

Import DatabaseManager FileScanner.

Variable size_threshold : Z.
Variable calculate_hash : Path.t -> Z -> option string.

Local Abbreviation eligible := (FileScanner.eligible size_threshold).
Local Abbreviation step := (find_duplicates_step size_threshold calculate_hash).
Local Abbreviation loop := (find_duplicates_loop size_threshold calculate_hash).

(** A row whose id is not the id of an eligible entry of the snapshot
    is not written by the loop. *)
Lemma loop_untouched (files : list Row) :
  forall (hashes : gmap (option string) Z) (d : t) (i : nat) (r : Row),
    d !! i = Some r ->
    (forall f, f ∈ files -> eligible f = true -> id f <> id r) ->
    (loop files (hashes, d)).2 !! i = Some r.
Proof.
  induction files as [|f files IH]; intros hashes d i r Hi Hne; [exact Hi|].
  unfold find_duplicates_loop. cbn [foldl].
  change (foldl step ?a files) with (loop files a).
  assert (Hrest : forall g, g ∈ files -> eligible g = true -> id g <> id r).
  { intros g Hg. apply Hne. right. exact Hg. }
  unfold find_duplicates_step.
  destruct (eligible f) eqn:Ef; [|apply IH; assumption].
  assert (Hf : (id r =? id f) = false).
  { apply Z.eqb_neq. intros E. apply (Hne f); [left|exact Ef|symmetry; exact E]. }
  assert (H1 : update_file_hash (id f) (calculate_hash (path f) (size f)) d !! i = Some r).
  { unfold update_file_hash. rewrite update_where_id_lookup, Hi. cbn. rewrite Hf. reflexivity. }
  destruct (hashes !! calculate_hash (path f) (size f)) as [o|].
  - apply IH; [|exact Hrest].
    unfold update_file_content_owner. rewrite update_where_id_lookup, H1. cbn.
    rewrite Hf. reflexivity.
  - apply IH; assumption.
Qed.

(** The loop consults the hash calculator for eligible entries only. *)
Lemma loop_calls_eligible (calc2 : Path.t -> Z -> option string) (files : list Row) :
  (forall f, f ∈ files -> eligible f = true ->
             calc2 (path f) (size f) = calculate_hash (path f) (size f)) ->
  forall acc, find_duplicates_loop size_threshold calc2 files acc = loop files acc.
Proof.
  induction files as [|f files IH]; intros Hagree acc; [reflexivity|].
  unfold find_duplicates_loop. cbn [foldl].
  change (foldl (find_duplicates_step size_threshold calc2) ?a files)
    with (find_duplicates_loop size_threshold calc2 files a).
  change (foldl step ?a files) with (loop files a).
  rewrite IH by (intros g Hg; apply Hagree; right; exact Hg).
  f_equal. destruct acc as [hashes d]. unfold find_duplicates_step.
  destruct (eligible f) eqn:Ef; [|reflexivity].
  rewrite (Hagree f) by (try left; assumption). reflexivity.
Qed.

End FindDuplicatesFacts.

Section FirstSeenWins.

Import DatabaseManager FileScanner.

Variable size_threshold : Z.
Variable calculate_hash : Path.t -> Z -> option string.

Local Abbreviation eligible := (FileScanner.eligible size_threshold).
Local Abbreviation loop := (find_duplicates_loop size_threshold calculate_hash).

Local Abbreviation loop_inv := (find_duplicates_inv size_threshold).

Lemma loop_inv_empty : loop_inv ∅ [].
Proof.
  split.
  - intros k o H. rewrite lookup_empty in H. discriminate.
  - intros x Hx. inversion Hx.
  - intros x Hx. inversion Hx.
Qed.

Lemma loop_inv_owner_in (hashes : gmap (option string) Z) (done : t) k o :
  loop_inv hashes done -> hashes !! k = Some o -> o ∈ map id done.
Proof.
  intros Hinv Hk. destruct (inv_owner_first _ _ _ Hinv k o Hk)
    as (l1 & c & l2 & -> & <- & _).
  apply list_elem_of_fmap. exists c. split; [reflexivity|].
  apply elem_of_app. right. left.
Qed.

(** A skipped entry joins the handled rows as it is. *)
Lemma loop_inv_skip hashes done f :
  loop_inv hashes done -> eligible f = false ->
  hash f = None -> content_owner_id f = None ->
  loop_inv hashes (done ++ [f]).
Proof.
  intros Hinv Ef Hh Ho. split.
  - intros k o Hk. destruct (inv_owner_first _ _ _ Hinv k o Hk)
      as (l1 & c & l2 & -> & Hrest).
    exists l1, c, (l2 ++ [f]). split; [|exact Hrest].
    rewrite <- app_assoc. reflexivity.
  - intros x Hx Ex. apply elem_of_app in Hx as [Hx|Hx].
    + apply (inv_eligible _ _ _ Hinv); assumption.
    + apply list_elem_of_singleton in Hx. subst x. congruence.
  - intros x Hx Ex. apply elem_of_app in Hx as [Hx|Hx].
    + apply (inv_skipped _ _ _ Hinv); assumption.
    + apply list_elem_of_singleton in Hx. subst x. split; assumption.
Qed.

(** An entry whose hash is already in the dictionary joins as a duplicate. *)
Lemma loop_inv_duplicate hashes done f o :
  loop_inv hashes done -> eligible f = true ->
  hashes !! hash f = Some o -> content_owner_id f = Some o -> id f <> o ->
  loop_inv hashes (done ++ [f]).
Proof.
  intros Hinv Ef Hh Ho Hne. split.
  - intros k o' Hk. destruct (inv_owner_first _ _ _ Hinv k o' Hk)
      as (l1 & c & l2 & -> & Hrest).
    exists l1, c, (l2 ++ [f]). split; [|exact Hrest].
    rewrite <- app_assoc. reflexivity.
  - intros x Hx Ex. apply elem_of_app in Hx as [Hx|Hx].
    + apply (inv_eligible _ _ _ Hinv); assumption.
    + apply list_elem_of_singleton in Hx. subst x. exists o. split; [exact Hh|].
      right. split; assumption.
  - intros x Hx Ex. apply elem_of_app in Hx as [Hx|Hx].
    + apply (inv_skipped _ _ _ Hinv); assumption.
    + apply list_elem_of_singleton in Hx. subst x. congruence.
Qed.

(** An entry whose hash is new becomes the owner of that hash. *)
Lemma loop_inv_canonical hashes done f :
  loop_inv hashes done -> eligible f = true ->
  hashes !! hash f = None -> content_owner_id f = None ->
  loop_inv (<[hash f := id f]> hashes) (done ++ [f]).
Proof.
  intros Hinv Ef Hh Ho.
  assert (Hnew : forall x, x ∈ done -> eligible x = true -> hash x <> hash f).
  { intros x Hx Ex E. destruct (inv_eligible _ _ _ Hinv x Hx Ex) as (o & Hl & _).
    rewrite E, Hh in Hl. discriminate. }
  split.
  - intros k o Hk. destruct (decide (hash f = k)) as [<-|Hkf].
    + rewrite lookup_insert_eq in Hk. injection Hk as <-.
      exists done, f, []. repeat split; try assumption; try reflexivity.
    + rewrite lookup_insert_ne in Hk by exact Hkf.
      destruct (inv_owner_first _ _ _ Hinv k o Hk) as (l1 & c & l2 & -> & Hrest).
      exists l1, c, (l2 ++ [f]). split; [|exact Hrest].
      rewrite <- app_assoc. reflexivity.
  - intros x Hx Ex. apply elem_of_app in Hx as [Hx|Hx].
    + destruct (inv_eligible _ _ _ Hinv x Hx Ex) as (o & Hl & Hcase).
      exists o. split; [|exact Hcase].
      rewrite lookup_insert_ne; [exact Hl|].
      intros E. apply (Hnew x Hx Ex). symmetry. exact E.
    + apply list_elem_of_singleton in Hx. subst x. exists (id f).
      split; [apply lookup_insert_eq|]. left. split; [exact Ho|reflexivity].
  - intros x Hx Ex. apply elem_of_app in Hx as [Hx|Hx].
    + apply (inv_skipped _ _ _ Hinv); assumption.
    + apply list_elem_of_singleton in Hx. subst x. congruence.
Qed.

Lemma fresh_tail (f : Row) (rest : t) : fresh (f :: rest) -> fresh rest.
Proof. intros H r Hr. apply H. right. exact Hr. Qed.

(** The loop on a fresh catalog, started after the rows [done]. *)
Lemma loop_canonical (rest : list Row) :
  forall (hashes : gmap (option string) Z) (done : t),
    NoDup (map id (done ++ rest)) -> fresh rest -> loop_inv hashes done ->
    exists hashes' done',
      loop rest (hashes, done ++ rest) = (hashes', done') /\
      loop_inv hashes' done' /\
      map id done' = map id (done ++ rest).
Proof.
  induction rest as [|f rest IH]; intros hashes done Hnd Hfresh Hinv.
  - exists hashes, done. rewrite app_nil_r.
    split; [reflexivity|]. split; [exact Hinv|reflexivity].
  - destruct (Hfresh f) as [Hh Ho]; [left|].
    apply fresh_tail in Hfresh.
    assert (Hids : forall f', id f' = id f ->
              map id (done ++ f' :: rest) = map id (done ++ f :: rest)).
    { intros f' E. rewrite !map_app. cbn [map]. rewrite E. reflexivity. }
    assert (Hnext : forall hashes1 f', id f' = id f ->
              loop_inv hashes1 (done ++ [f']) ->
              exists hashes' done',
                loop rest (hashes1, done ++ f' :: rest) = (hashes', done') /\
                loop_inv hashes' done' /\
                map id done' = map id (done ++ f :: rest)).
    { intros hashes1 f' E Hinv1.
      rewrite <- (Hids f' E). rewrite (cons_middle f' done rest), app_assoc.
      apply IH; [|exact Hfresh|exact Hinv1].
      rewrite <- app_assoc. cbn [app]. rewrite (Hids f' E). exact Hnd. }
    unfold find_duplicates_loop. cbn [foldl].
    change (foldl (find_duplicates_step size_threshold calculate_hash) ?a rest)
      with (loop rest a).
    unfold find_duplicates_step.
    destruct (eligible f) eqn:Ef.
    + unfold update_file_hash. rewrite update_where_id_middle by exact Hnd.
      remember (calculate_hash (path f) (size f)) as h eqn:Eh.
      destruct (hashes !! h) as [o|] eqn:Hl.
      * unfold update_file_content_owner.
        change (id f) with (id (set_hash h f)).
        rewrite update_where_id_middle
          by (rewrite (Hids (set_hash h f) eq_refl); exact Hnd).
        apply Hnext; [reflexivity|].
        apply (loop_inv_duplicate _ _ _ o); try assumption; try reflexivity.
        intros E. pose proof (loop_inv_owner_in _ _ _ _ Hinv Hl) as Hin.
        rewrite map_app in Hnd. apply NoDup_app in Hnd as (_ & Hdisj & _).
        apply (Hdisj o Hin). cbn [map]. rewrite <- E. left.
      * apply Hnext; [reflexivity|].
        apply (loop_inv_canonical hashes done (set_hash h f)); assumption.
    + apply Hnext; [reflexivity|]. apply loop_inv_skip; assumption.
Qed.

(** With unique ids the invariant gives the ownership shape. *)
Lemma loop_inv_canonical_form (hashes : gmap (option string) Z) (d : t) :
  NoDup (map id d) -> loop_inv hashes d -> canonical_form d.
Proof.
  intros Hnd Hinv h r Hr Hh.
  assert (Hel : forall x, x ∈ d -> hash x = Some h -> eligible x = true).
  { intros x Hx Hxh. destruct (eligible x) eqn:Ex; [reflexivity|].
    destruct (inv_skipped _ _ _ Hinv x Hx Ex) as [Hnone _]. congruence. }
  destruct (inv_eligible _ _ _ Hinv r Hr (Hel r Hr Hh)) as (o & Hl & _).
  rewrite Hh in Hl.
  destruct (inv_owner_first _ _ _ Hinv _ _ Hl)
    as (l1 & c & l2 & Hd & Hc & _ & Hch & Hco & Hfirst).
  assert (Hlater : forall x, x ∈ l2 -> id x <> id c).
  { intros x Hx E. rewrite Hd, map_app in Hnd. cbn [map] in Hnd.
    apply NoDup_app in Hnd as (_ & _ & Hnd). apply NoDup_cons in Hnd as [Hnotin _].
    apply Hnotin. rewrite <- E. apply list_elem_of_fmap. eauto. }
  exists l1, c, l2.
  split; [exact Hd|]. split; [exact Hch|]. split; [exact Hco|]. split.
  - intros x Hx Hxh. apply (Hfirst x Hx); [|exact Hxh].
    apply Hel; [|exact Hxh]. rewrite Hd. apply elem_of_app. left. exact Hx.
  - intros x Hx Hxh. split; [|apply Hlater; exact Hx].
    assert (Hxd : x ∈ d).
    { rewrite Hd. apply elem_of_app. right. right. exact Hx. }
    destruct (inv_eligible _ _ _ Hinv x Hxd (Hel x Hxd Hxh)) as (o' & Hl' & Hcase).
    rewrite Hxh, Hl in Hl'. injection Hl' as <-.
    destruct Hcase as [[_ Hsame]|[Hown _]]; [|rewrite Hown, Hc; reflexivity].
    exfalso. apply (Hlater x Hx). rewrite Hc. exact Hsame.
Qed.

End FirstSeenWins.

(** ** Claims about the hash classifier and the duplicate detector *)

(** C6. The strategy is chosen by the size passed in, with the boundary at
    1 MiB: below it the digest is that of the whole content, streamed in
    order; from 1 MiB on it is the digest of three 100 KiB windows, read at
    offset 0, at max(0, size/2 - 50 KiB) and at max(0, size - 100 KiB) and
    fed in that order.  For a file of at least 1 MiB the clamps do nothing
    and each window is a full 100 KiB, so the middle one is centred at
    size/2. *)
Theorem calculate_hash_by_size
    (sha256_hexdigest : list Byte.byte -> string)
    (open_rb : Path.t -> option (list Byte.byte))
    (file_path : Path.t) (bytes : list Byte.byte) (file_size : Z) :
  open_rb file_path = Some bytes ->
  let calculate_hash := HashCalculator.calculate_hash sha256_hexdigest open_rb in
  let window := HashCalculator.window bytes in
  let n := HashCalculator.getsize bytes in
  (file_size < 1024 * 1024 ->
     calculate_hash file_path file_size = Some (sha256_hexdigest bytes)) /\
  (1024 * 1024 <= file_size ->
     calculate_hash file_path file_size =
       Some (sha256_hexdigest
               (window 0 ++ window (Z.max 0 (n / 2 - 51200))
                         ++ window (Z.max 0 (n - 102400))))) /\
  (1024 * 1024 <= n ->
     Z.max 0 (n / 2 - 51200) = n / 2 - 51200 /\
     Z.max 0 (n - 102400) = n - 102400 /\
     Z.of_nat (length (window 0)) = 102400 /\
     Z.of_nat (length (window (n / 2 - 51200))) = 102400 /\
     Z.of_nat (length (window (n - 102400))) = 102400).
Proof.
  intros Hopen calculate_hash window n. split; [|split].
  - intros Hlt. unfold calculate_hash, HashCalculator.calculate_hash.
    destruct (Z.ltb_spec file_size (1024 * 1024)) as [_|Hge]; [|lia].
    apply full_hash_whole. exact Hopen.
  - intros Hge. unfold calculate_hash, HashCalculator.calculate_hash.
    destruct (Z.ltb_spec file_size (1024 * 1024)) as [Hlt|_]; [lia|].
    apply (partial_hash_windows sha256_hexdigest open_rb file_path bytes Hopen).
  - intros Hbig.
    assert (Hchunk : HashCalculator.chunk_size = 102400) by reflexivity.
    assert (Hhalf : 524288 <= n / 2) by (apply Z.div_le_lower_bound; lia).
    assert (Hhalf' : 2 * (n / 2) <= n) by (apply Z.mul_div_le; lia).
    assert (Hn : HashCalculator.getsize bytes = n) by reflexivity.
    clearbody n.
    repeat split; try lia; unfold window;
      rewrite window_length; rewrite ?Hchunk, ?Hn; lia.
Qed.

Lemma calculate_hash_by_size_witness :
  Sample.small_open ["mnt"; "x"; "a"]%string = Some [Byte.x01; Byte.x02; Byte.x03] /\
  HashCalculator.calculate_hash Sample.toy_digest Sample.small_open
    ["mnt"; "x"; "a"]%string 3 = Some "9"%string.
Proof.
  split; [reflexivity|].
  destruct (calculate_hash_by_size Sample.toy_digest Sample.small_open
              ["mnt"; "x"; "a"]%string [Byte.x01; Byte.x02; Byte.x03] 3 eq_refl)
    as [Hfull _].
  rewrite Hfull by lia. reflexivity.
Defined.

Lemma eligible_false (size_threshold : Z) (r : Row) :
  type r <> file \/ size r <= size_threshold ->
  FileScanner.eligible size_threshold r = false.
Proof.
  intros [Ht|Hs]; unfold FileScanner.eligible.
  - rewrite bool_decide_eq_false_2 by exact Ht. reflexivity.
  - apply andb_false_iff. right. rewrite Z.gtb_ltb. apply Z.ltb_ge. exact Hs.
Qed.

Lemma eligible_true (size_threshold : Z) (r : Row) :
  FileScanner.eligible size_threshold r = true ->
  type r = file /\ size r > size_threshold.
Proof.
  unfold FileScanner.eligible. intros H. apply andb_true_iff in H as [Ht Hs].
  apply bool_decide_eq_true in Ht. split; [exact Ht|].
  rewrite Z.gtb_ltb in Hs. apply Z.ltb_lt in Hs. lia.
Qed.

(** C7. With unique ids, a row that is not a file, or whose size is at or
    below the threshold, is the same row after the pass (so its hash and
    content_owner_id stay unset when they were), and the pass does not
    depend on what the hash calculator would answer for such rows: only
    files above the threshold are hashed. *)
Theorem find_duplicates_skips_at_or_below_threshold
    (size_threshold : Z) (calculate_hash : Path.t -> Z -> option string)
    (d : DatabaseManager.t) :
  NoDup (map id d) ->
  (forall (i : nat) (r : Row),
     d !! i = Some r ->
     type r <> file \/ size r <= size_threshold ->
     FileScanner.find_duplicates size_threshold calculate_hash d !! i = Some r) /\
  (forall calc2 : Path.t -> Z -> option string,
     (forall f, f ∈ d -> type f = file -> size f > size_threshold ->
                calc2 (path f) (size f) = calculate_hash (path f) (size f)) ->
     FileScanner.find_duplicates size_threshold calc2 d =
     FileScanner.find_duplicates size_threshold calculate_hash d).
Proof.
  intros Hnd. split.
  - intros i r Hi Hskip. apply eligible_false in Hskip.
    unfold FileScanner.find_duplicates, DatabaseManager.get_all_files.
    apply loop_untouched; [exact Hi|].
    intros f Hf Ef E.
    assert (Hr : r ∈ d) by (apply list_elem_of_lookup; eauto).
    rewrite (unique_id_row d f r Hnd Hf Hr E) in Ef. congruence.
  - intros calc2 Hagree. unfold FileScanner.find_duplicates. f_equal.
    apply loop_calls_eligible. intros f Hf Ef.
    apply eligible_true in Ef as [Ht Hs]. apply Hagree; assumption.
Qed.

Lemma find_duplicates_skips_at_or_below_threshold_witness :
  NoDup (map id Sample.small_catalog) /\
  FileScanner.find_duplicates 3
    (HashCalculator.calculate_hash Sample.toy_digest Sample.small_open)
    Sample.small_catalog !! 1%nat = Some Sample.small_row_b.
Proof.
  assert (Hnd : NoDup (map id Sample.small_catalog)).
  { apply NoDup_cons. split; [|apply NoDup_singleton].
    intros H. apply list_elem_of_singleton in H. discriminate H. }
  split; [exact Hnd|].
  apply (find_duplicates_skips_at_or_below_threshold 3 _ _ Hnd).
  - reflexivity.
  - right. cbn. lia.
Defined.

(** C5, as amended.  On a fresh catalog (nothing hashed or linked yet)
    with unique ids, after find_duplicates the rows carrying a hash value
    start with one row without owner, the first one in catalog order, and
    every later row with that hash has that row, and not itself, as
    content_owner_id; the owner has no owner, so no chain has two hops. *)
Theorem find_duplicates_first_seen_wins
    (size_threshold : Z) (calculate_hash : Path.t -> Z -> option string)
    (d : DatabaseManager.t) :
  NoDup (map id d) -> fresh d ->
  canonical_form (FileScanner.find_duplicates size_threshold calculate_hash d).
Proof.
  intros Hnd Hfresh.
  destruct (loop_canonical size_threshold calculate_hash d ∅ [] Hnd Hfresh
              (loop_inv_empty size_threshold))
    as (hashes' & done' & Hrun & Hinv & Hids).
  unfold FileScanner.find_duplicates, DatabaseManager.get_all_files.
  cbn [app] in Hrun. rewrite Hrun. cbn [snd].
  apply (loop_inv_canonical_form size_threshold hashes'); [|exact Hinv].
  rewrite Hids. exact Hnd.
Qed.

Lemma find_duplicates_first_seen_wins_witness :
  NoDup (map id Sample.small_catalog) /\ fresh Sample.small_catalog /\
  canonical_form
    (FileScanner.find_duplicates 0
       (HashCalculator.calculate_hash Sample.toy_digest Sample.small_open)
       Sample.small_catalog).
Proof.
  assert (Hnd : NoDup (map id Sample.small_catalog)).
  { apply NoDup_cons. split; [|apply NoDup_singleton].
    intros H. apply list_elem_of_singleton in H. discriminate H. }
  assert (Hfresh : fresh Sample.small_catalog).
  { intros r Hr. apply elem_of_cons in Hr as [->|Hr]; [split; reflexivity|].
    apply list_elem_of_singleton in Hr. subst r. split; reflexivity. }
  split; [exact Hnd|]. split; [exact Hfresh|].
  apply (find_duplicates_first_seen_wins 0 _ _ Hnd Hfresh).
Defined.

Lemma zeros_window (n offset : Z) :
  0 <= offset -> offset + 102400 <= n ->
  HashCalculator.window (Sample.zeros n) offset = Sample.zeros 102400.
Proof.
  intros H0 Hle. unfold HashCalculator.window, Sample.zeros, HashCalculator.chunk_size.
  rewrite drop_replicate, take_replicate. f_equal. lia.
Qed.

Lemma toy_digest_three_windows :
  Sample.toy_digest (Sample.zeros 102400 ++ Sample.zeros 102400 ++ Sample.zeros 102400)
  = "307200"%string.
Proof. vm_compute. reflexivity. Qed.

(** The sampled digest of a file of at least 1 MiB of zero bytes. *)
Lemma zeros_sampled_digest
    (open_rb : Path.t -> option (list Byte.byte)) (p : Path.t) (n file_size : Z) :
  open_rb p = Some (Sample.zeros n) -> 1024 * 1024 <= n -> 1024 * 1024 <= file_size ->
  HashCalculator.calculate_hash Sample.toy_digest open_rb p file_size
  = Some "307200"%string.
Proof.
  intros Hopen Hn Hsize. unfold HashCalculator.calculate_hash.
  destruct (Z.ltb_spec file_size (1024 * 1024)) as [Hlt|_]; [lia|].
  rewrite (partial_hash_windows Sample.toy_digest open_rb p _ Hopen).
  assert (Hlen : HashCalculator.getsize (Sample.zeros n) = n).
  { unfold HashCalculator.getsize, Sample.zeros. rewrite length_replicate. lia. }
  assert (Hchunk : HashCalculator.chunk_size = 102400) by reflexivity.
  assert (Hhalf : 524288 <= n / 2) by (apply Z.div_le_lower_bound; lia).
  assert (Hhalf' : 2 * (n / 2) <= n) by (apply Z.mul_div_le; lia).
  rewrite Hlen, Hchunk. change (102400 / 2) with 51200.
  rewrite !Z.max_r by lia. rewrite !zeros_window by lia.
  rewrite toy_digest_three_windows. reflexivity.
Qed.

(** What the two runs on the three big files leave in the catalog. *)
Lemma big_second_run_rows :
  map (fun r => (id r, hash r, content_owner_id r)) Sample.big_second_run =
  [(1, Some "307200"%string, None);
   (2, Some "307200"%string, Some 1);
   (3, Some "307200"%string, Some 2)].
Proof.
  set (calc := HashCalculator.calculate_hash Sample.toy_digest Sample.big_open).
  set (const := fun (_ : Path.t) (_ : Z) => Some "307200"%string).
  assert (Ha : calc ["mnt"; "a"]%string 1048576 = Some "307200"%string)
    by (apply (zeros_sampled_digest _ _ 1048576); [reflexivity|lia|lia]).
  assert (Hb : calc ["mnt"; "b"]%string 1048577 = Some "307200"%string)
    by (apply (zeros_sampled_digest _ _ 1048577); [reflexivity|lia|lia]).
  assert (Hc : calc ["mnt"; "c"]%string 1048577 = Some "307200"%string)
    by (apply (zeros_sampled_digest _ _ 1048577); [reflexivity|lia|lia]).
  assert (Hagree : forall f,
            f ∈ Sample.big_catalog ->
            const (path f) (size f) = calc (path f) (size f)).
  { intros f Hf.
    apply elem_of_cons in Hf as [->|Hf]; [symmetry; exact Ha|].
    apply elem_of_cons in Hf as [->|Hf]; [symmetry; exact Hb|].
    apply elem_of_cons in Hf as [->|Hf]; [symmetry; exact Hc|].
    inversion Hf. }
  set (first_run :=
         [set_hash (Some "307200"%string) Sample.big_row_a;
          set_content_owner (Some 1) (set_hash (Some "307200"%string) Sample.big_row_b);
          set_content_owner (Some 1) (set_hash (Some "307200"%string) Sample.big_row_c)]).
  assert (Hagree' : forall f,
            f ∈ first_run ->
            const (path f) (size f) = calc (path f) (size f)).
  { intros f Hf.
    apply elem_of_cons in Hf as [->|Hf]; [symmetry; exact Ha|].
    apply elem_of_cons in Hf as [->|Hf]; [symmetry; exact Hb|].
    apply elem_of_cons in Hf as [->|Hf]; [symmetry; exact Hc|].
    inversion Hf. }
  assert (Hfirst : Sample.big_first_run = first_run).
  { unfold Sample.big_first_run, FileScanner.find_duplicates,
      DatabaseManager.get_all_files. fold calc.
    rewrite <- (loop_calls_eligible 0 calc const Sample.big_catalog
                  (fun f Hf _ => Hagree f Hf)).
    vm_compute. reflexivity. }
  unfold Sample.big_second_run. fold calc. rewrite Hfirst.
  unfold FileScanner.find_duplicates, DatabaseManager.get_all_files.
  rewrite <- (loop_calls_eligible (1024 * 1024) calc const first_run
                (fun f Hf _ => Hagree' f Hf)).
  vm_compute. reflexivity.
Qed.

(** C5 as stated fails when find_duplicates runs on a catalog that an
    earlier run has annotated: after a run with threshold 0 and a run with
    threshold 1 MiB, row 3 is owned by row 2, which is owned by row 1. *)
Lemma find_duplicates_rerun_not_canonical :
  ~ canonical_form Sample.big_second_run.
Proof.
  intros Hcf. pose proof big_second_run_rows as Hrows.
  destruct Sample.big_second_run as [|r1 [|r2 [|r3 [|r4 rest]]]];
    cbn [map] in Hrows; try discriminate Hrows.
  assert (Hi1 : id r1 = 1) by congruence.
  assert (Hh1 : hash r1 = Some "307200"%string) by congruence.
  assert (Hh3 : hash r3 = Some "307200"%string) by congruence.
  assert (Ho3 : content_owner_id r3 = Some 2) by congruence.
  destruct (Hcf "307200"%string r3) as (l1 & c & l2 & Hd & Hch & Hco & Hfirst & Hlater).
  { right. right. left. }
  { exact Hh3. }
  destruct l1 as [|x l1].
  - cbn in Hd. injection Hd as <- <-.
    destruct (Hlater r3) as [Hown _]; [right; left|exact Hh3|].
    rewrite Ho3, Hi1 in Hown. discriminate Hown.
  - cbn in Hd. injection Hd as <- _.
    apply (Hfirst r1); [left|exact Hh1].
Qed.

(** C2, at the failing input: two files above the threshold, neither of
    which can be read.  calculate_hash answers None for both, None is used
    as a dictionary key like any digest, and the second file is recorded
    as a duplicate of the first. *)
Theorem find_duplicates_links_unreadable_files :
  FileScanner.find_duplicates 0
    (HashCalculator.calculate_hash Sample.toy_digest Sample.unreadable)
    Sample.small_catalog =
  [Sample.small_row_a; set_content_owner (Some 1) Sample.small_row_b].
Proof. vm_compute. reflexivity. Qed.

(** ** Claims about the scanner *)

Section ScannerFacts.

Import DatabaseManager FileScanner.

Lemma insert_file_rows nm p sz ty st parent h isl o (d : t) (r : Row) :
  r ∈ insert_file nm p sz ty st parent h isl o d ->
  r ∈ d \/ r = mkRow (next_id d) nm p sz ty st parent h isl o.
Proof.
  unfold insert_file. destruct (get_file_by_path p d); [left; assumption|].
  intros Hr. apply elem_of_app in Hr as [Hr|Hr]; [left; exact Hr|].
  right. apply list_elem_of_singleton in Hr. exact Hr.
Qed.

Lemma add_entry_symlinks_empty entry file_type parent isl (d : t) :
  symlinks_empty d ->
  symlinks_empty (add_entry_to_database entry file_type parent isl d).2.
Proof.
  intros Hd. unfold add_entry_to_database.
  destruct (bool_decide (file_type ≠ symlink)) eqn:Ety.
  - apply bool_decide_eq_true in Ety.
    destruct (st_size entry) as [sz|]; [|exact Hd].
    assert (Hins : symlinks_empty
              (insert_file (entry_name entry) (entry_path entry) sz file_type
                 pending parent None isl None d)).
    { intros r Hr Hty. apply insert_file_rows in Hr as [Hr| ->]; [apply Hd; assumption|].
      cbn in Hty. contradiction. }
    destruct (get_file_by_path _ _); exact Hins.
  - assert (Hins : symlinks_empty
              (insert_file (entry_name entry) (entry_path entry) 0 file_type
                 pending parent None isl None d)).
    { intros r Hr Hty. apply insert_file_rows in Hr as [Hr| ->]; [apply Hd; assumption|].
      reflexivity. }
    destruct (get_file_by_path _ _); exact Hins.
Qed.

Lemma scan_entry_symlinks_empty :
  forall (entry : DirEntry) (parent : option Z) (d : t),
    symlinks_empty d -> symlinks_empty (scan_entry parent entry d).
Proof.
  fix IH 1. intros [nm p isd isf isl st listing] parent d Hd.
  cbn [scan_entry].
  set (entry := mkDirEntry nm p isd isf isl st listing).
  destruct isd.
  - pose proof (add_entry_symlinks_empty entry folder parent 0 d Hd) as H1.
    destruct (add_entry_to_database entry folder parent 0 d) as [file_id d1].
    cbn [snd] in H1. destruct listing as [entries|]; [|exact H1].
    clear entry. revert d1 H1.
    induction entries as [|e entries IHes]; intros d1 H1; [exact H1|].
    apply IHes. apply IH. exact H1.
  - destruct isf; [apply add_entry_symlinks_empty; exact Hd|].
    destruct isl; [apply add_entry_symlinks_empty; exact Hd|exact Hd].
Qed.

Lemma scan_directory_symlinks_empty listing parent (d : t) :
  symlinks_empty d -> symlinks_empty (scan_directory listing parent d).
Proof.
  destruct listing as [entries|]; [|trivial]. cbn [scan_directory].
  revert d. induction entries as [|e entries IH]; intros d Hd; [exact Hd|].
  cbn [foldl]. apply IH. apply scan_entry_symlinks_empty. exact Hd.
Qed.

End ScannerFacts.

(** C8, as amended.  A row that add_entry_to_database adds to the catalog
    has the kind and path it was called with; its size is 0 when the kind
    is symlink, and otherwise (file or folder) the st_size the host reports
    for the entry.  Scanning keeps the symbolic links of the catalog at
    size 0. *)
Theorem add_entry_to_database_size
    (entry : FileScanner.DirEntry) (file_type : Kind) (parent : option Z)
    (is_symlink_ : Z) (d : DatabaseManager.t) (r : Row) :
  r ∈ (FileScanner.add_entry_to_database entry file_type parent is_symlink_ d).2 ->
  (r ∈ d \/
   (type r = file_type /\ path r = FileScanner.entry_path entry /\
    status r = pending /\
    (file_type = symlink -> size r = 0) /\
    (file_type <> symlink -> FileScanner.st_size entry = Some (size r)))) /\
  (forall listing, symlinks_empty d ->
     symlinks_empty (FileScanner.scan_directory listing parent d)).
Proof.
  intros Hr. split; [|intros listing; apply scan_directory_symlinks_empty].
  unfold FileScanner.add_entry_to_database in Hr.
  destruct (bool_decide (file_type ≠ symlink)) eqn:Ety.
  - apply bool_decide_eq_true in Ety.
    destruct (FileScanner.st_size entry) as [sz|] eqn:Est; [|left; exact Hr].
    assert (Hins : r ∈ DatabaseManager.insert_file (FileScanner.entry_name entry)
                     (FileScanner.entry_path entry) sz file_type pending parent
                     None is_symlink_ None d).
    { destruct (DatabaseManager.get_file_by_path _ _); exact Hr. }
    apply insert_file_rows in Hins as [Hin| ->]; [left; exact Hin|right].
    cbn. repeat split; try reflexivity; intros; contradiction.
  - apply bool_decide_eq_false in Ety.
    assert (Hty : file_type = symlink)
      by (destruct file_type; try reflexivity; exfalso; apply Ety; discriminate).
    assert (Hins : r ∈ DatabaseManager.insert_file (FileScanner.entry_name entry)
                     (FileScanner.entry_path entry) 0 file_type pending parent
                     None is_symlink_ None d).
    { destruct (DatabaseManager.get_file_by_path _ _); exact Hr. }
    apply insert_file_rows in Hins as [Hin| ->]; [left; exact Hin|right].
    cbn. repeat split; try reflexivity; intros; contradiction.
Qed.

Lemma add_entry_to_database_size_witness :
  let entry := FileScanner.mkDirEntry "n.txt" ["mnt"; "n.txt"]%string
                 false true false (Some 12) None in
  let r := mkRow 1 "n.txt" ["mnt"; "n.txt"]%string 12 file pending None None 0 None in
  r ∈ (FileScanner.add_entry_to_database entry file None 0 []).2 /\
  (file <> symlink -> FileScanner.st_size entry = Some (size r)).
Proof.
  intros entry r.
  assert (Hr : r ∈ (FileScanner.add_entry_to_database entry file None 0 []).2).
  { vm_compute. left. }
  split; [exact Hr|].
  destruct (add_entry_to_database_size entry file None 0 [] r Hr) as [[Hin|Hnew] _].
  - inversion Hin.
  - apply Hnew.
Defined.

(** C8 as stated fails for folders: the scanned folder keeps the 4096
    bytes its directory metadata reports. *)
Lemma scan_directory_folder_size :
  map (fun r => (type r, size r))
      (FileScanner.scan_directory (Some Sample.docs_listing) None []) =
    [(folder, 4096); (file, 12); (symlink, 0)] /\
  ~ (forall r, r ∈ FileScanner.scan_directory (Some Sample.docs_listing) None [] ->
               type r = folder \/ type r = symlink -> size r = 0).
Proof.
  split; [vm_compute; reflexivity|].
  intros Hall.
  specialize (Hall (mkRow 1 "docs" ["mnt"; "docs"]%string 4096 folder pending
                      None None 0 None)).
  discriminate Hall; [vm_compute; left|left; reflexivity].
Qed.

(** ** The backup executor *)

Section ExecutorFacts.

Import DatabaseManager BackupManager.

Variable host : Host.
Variable config : Config.

Lemma os_call_db (c : OsCall) (w : World) : db (os_call host c w).2 = db w.
Proof. unfold os_call. destruct (os_outcome host (trace w) c); reflexivity. Qed.

Lemma bind_os_call_db {A} (c : OsCall) (k : unit -> M A) (w : World) :
  (forall w', db w' = db w -> db (k tt w').2 = db w) ->
  db (bind (os_call host c) k w).2 = db w.
Proof.
  intros Hk. unfold bind. pose proof (os_call_db c w) as Hc.
  destruct (os_call host c w) as [[[]|e] w']; cbn [snd] in *.
  - apply Hk. exact Hc.
  - exact Hc.
Qed.

(** Materialization never writes to the catalog. *)
Lemma copy_file_create_symlink_db (depth : nat) :
  (forall f file_path dest_path backup_destination w,
      db (copy_file host config depth f file_path dest_path backup_destination w).2 = db w) /\
  (forall f target_path link_path w,
      db (create_symlink host config depth f target_path link_path w).2 = db w).
Proof.
  induction depth as [|depth [IHcopy IHlink]]; [split; reflexivity|]. split.
  - intros f file_path dest_path backup_destination w. cbn [copy_file].
    apply bind_os_call_db. intros w' Hw'.
    destruct (has_content_owner f); [|rewrite os_call_db; exact Hw'].
    destruct (get_file_by_path file_path (db w')); [|rewrite os_call_db; exact Hw'].
    unfold bind, join_destination.
    destruct backup_destination as [d|]; cbn; [|exact Hw'].
    rewrite IHlink. exact Hw'.
  - intros f target_path link_path w. cbn [create_symlink]. unfold try_except.
    pose proof (bind_os_call_db (Makedirs (Path.dirname link_path))
                  (fun _ => os_call host (Symlink target_path link_path)) w) as Htry.
    destruct (bind _ _ w) as [[[]|e] w'] eqn:Etry; cbn [snd] in *.
    + apply Htry. intros w1 Hw1. rewrite os_call_db. exact Hw1.
    + assert (Hw' : db w' = db w).
      { apply Htry. intros w1 Hw1. rewrite os_call_db. exact Hw1. }
      destruct e; [rewrite IHcopy; exact Hw'|exact Hw'].
Qed.

Lemma materialize_db f file_path dest_path backup_destination w :
  db (materialize host config f file_path dest_path backup_destination w).2 = db w.
Proof.
  unfold materialize. destruct (type f).
  - apply copy_file_create_symlink_db.
  - apply os_call_db.
  - apply copy_file_create_symlink_db.
Qed.

Lemma update_status_twice (k : Z) (s1 s2 : Status) (d : t) :
  update_file_status k s2 (update_file_status k s1 d) = update_file_status k s2 d.
Proof.
  unfold update_file_status, update_where_id. rewrite map_map.
  apply map_ext. intros r. destruct (id r =? k) eqn:E; cbn; rewrite E; reflexivity.
Qed.

Local Abbreviation dest_path_of := (dest_path_of host config).

(** One entry: the status goes to copying, the entry is materialized,
    and the status becomes success or failed by the outcome. *)
Lemma backup_file_spec (f : Row) (d : Path.t) (w : World) :
  exists (res : Result unit) (w1 : World),
    materialize host config f (path f) (dest_path_of d f) (Some d)
      (mkWorld (update_file_status (id f) copying (db w)) (trace w)) = (res, w1) /\
    backup_file host config f (Some d) w =
      (Ok tt, mkWorld (update_file_status (id f) (status_of res) (db w)) (trace w1)).
Proof.
  set (w0 := mkWorld (update_file_status (id f) copying (db w)) (trace w)).
  pose proof (materialize_db f (path f) (dest_path_of d f) (Some d) w0) as Hdb.
  destruct (materialize host config f (path f) (dest_path_of d f) (Some d) w0)
    as [res w1] eqn:Em.
  exists res, w1. split; [reflexivity|].
  unfold backup_file, join_destination, bind, ret, try_except, on_db.
  fold (dest_path_of d f). cbn [db trace]. fold w0. rewrite Em.
  cbn [snd] in Hdb. unfold w0 in Hdb. cbn [db] in Hdb.
  destruct res as [[]|e]; cbn [status_of db]; rewrite Hdb;
    rewrite update_status_twice; reflexivity.
Qed.

Lemma update_file_status_elem (k : Z) (s : Status) (d : t) (r : Row) :
  r ∈ update_file_status k s d ->
  exists r0, r0 ∈ d /\ id r = id r0 /\
    ((id r0 = k /\ r = set_status s r0) \/ (id r0 <> k /\ r = r0)).
Proof.
  unfold update_file_status, update_where_id. intros Hr.
  apply list_elem_of_fmap in Hr as (r0 & -> & Hr0). exists r0.
  split; [exact Hr0|]. destruct (Z.eqb_spec (id r0) k) as [E|E].
  - split; [reflexivity|]. left. split; [exact E|reflexivity].
  - split; [reflexivity|]. right. split; [exact E|reflexivity].
Qed.

Lemma restatus_elem files sigma (d : t) (r : Row) :
  r ∈ restatus files sigma d ->
  exists r0, r0 ∈ d /\ id r = id r0 /\
    ((id r0 ∈ map id files /\ r = set_status (sigma (id r0)) r0) \/
     ((id r0 ∉ map id files) /\ r = r0)).
Proof.
  unfold restatus. intros Hr.
  apply list_elem_of_fmap in Hr as (r0 & -> & Hr0). exists r0.
  split; [exact Hr0|]. destruct (decide (id r0 ∈ map id files)) as [E|E].
  - rewrite bool_decide_eq_true_2 by exact E.
    split; [reflexivity|]. left. split; [exact E|reflexivity].
  - rewrite bool_decide_eq_false_2 by exact E.
    split; [reflexivity|]. right. split; [exact E|reflexivity].
Qed.

(** The whole pass, when the destination is configured: it returns, and
    the catalog is the old one with final statuses on the selected ids. *)
Lemma backup_files_loop_spec (d : Path.t) (files : list Row) :
  forall w : World,
    exists (sigma : Z -> Status) (w' : World),
      (forall k, final_status (sigma k)) /\
      backup_files_loop host config files (Some d) w = (Ok tt, w') /\
      db w' = restatus files sigma (db w).
Proof.
  induction files as [|f files IH]; intros w.
  - exists (fun _ => success), w. split; [intros k; left; reflexivity|].
    split; [reflexivity|]. unfold restatus. cbn [map].
    rewrite <- (map_id (db w)) at 1. apply map_ext. intros r.
    rewrite bool_decide_eq_false_2; [reflexivity|]. apply not_elem_of_nil.
  - destruct (backup_file_spec f d w) as (res & w1 & _ & Hf).
    set (s := status_of res) in Hf.
    assert (Hs : final_status s) by (unfold s; destruct res; [left|right]; reflexivity).
    destruct (IH (mkWorld (update_file_status (id f) s (db w)) (trace w1)))
      as (sigma' & w' & Hfinal & Hrun & Hdb).
    exists (fun k => if bool_decide (k ∈ map id files) then sigma' k else s), w'.
    split; [intros k; destruct (bool_decide _); [apply Hfinal|exact Hs]|].
    split.
    + cbn [backup_files_loop]. unfold bind at 1. rewrite Hf. exact Hrun.
    + rewrite Hdb. cbn [db]. unfold restatus, update_file_status, update_where_id.
      rewrite map_map. apply map_ext. intros r. cbn [map].
      destruct (Z.eqb_spec (id r) (id f)) as [E|E].
      * change (id (set_status s r)) with (id r).
        rewrite (bool_decide_eq_true_2 (id r ∈ id f :: map id files))
          by (rewrite E; left).
        destruct (bool_decide (id r ∈ map id files)); reflexivity.
      * destruct (decide (id r ∈ map id files)) as [Hin|Hin].
        -- rewrite !bool_decide_eq_true_2; [reflexivity| |exact Hin].
           right. exact Hin.
        -- rewrite !bool_decide_eq_false_2; [reflexivity| |exact Hin].
           intros Hc. apply elem_of_cons in Hc as [Hc|Hc]; contradiction.
Qed.

Lemma backup_files_loop_app (bd : option Path.t) (l1 l2 : list Row) (w : World) :
  backup_files_loop host config (l1 ++ l2) bd w =
  bind (backup_files_loop host config l1 bd)
       (fun _ => backup_files_loop host config l2 bd) w.
Proof.
  revert w. induction l1 as [|f l1 IH]; intros w; [reflexivity|].
  cbn [app backup_files_loop]. unfold bind.
  destruct (backup_file host config f bd w) as [[[]|e] w1]; [|reflexivity].
  rewrite IH. reflexivity.
Qed.

End ExecutorFacts.

(** C4.  With the destination configured, a backup pass returns, and it
    leaves the catalog as it was except that every row whose id is in the
    selection has a status that is success or failed; rows outside the
    selection and all other columns are untouched.  Each entry is
    materialized in its turn whatever happened to the entries before it,
    and (for the last occurrence of an id) the recorded status is failed
    exactly when that entry's own materialization raised. *)
Theorem backup_files_final_statuses
    (host : Host) (config : Config) (d : Path.t) (files : list Row) (w : World) :
  BACKUP_DESTINATION config = Some d ->
  exists (sigma : Z -> Status) (w' : World),
    BackupManager.backup_files host config files w = (Ok tt, w') /\
    (forall k, final_status (sigma k)) /\
    db w' = restatus files sigma (db w) /\
    (forall r, r ∈ db w' -> id r ∈ map id files -> final_status (status r)) /\
    (forall l1 f l2, files = l1 ++ f :: l2 -> id f ∉ map id l2 ->
       exists (w1 : World) (res : Result unit) (w2 : World),
         BackupManager.backup_files_loop host config l1 (Some d) w = (Ok tt, w1) /\
         BackupManager.materialize host config f (path f)
           (BackupManager.dest_path_of host config d f) (Some d)
           (mkWorld (DatabaseManager.update_file_status (id f) copying (db w1))
                    (trace w1)) = (res, w2) /\
         forall r, r ∈ db w' -> id r = id f ->
                   status r = BackupManager.status_of res).
Proof.
  intros Hdest. unfold BackupManager.backup_files. rewrite Hdest.
  destruct (backup_files_loop_spec host config d files w)
    as (sigma & w' & Hfinal & Hrun & Hdb).
  exists sigma, w'. split; [exact Hrun|]. split; [exact Hfinal|].
  split; [exact Hdb|]. split.
  - intros r Hr Hin. rewrite Hdb in Hr.
    apply restatus_elem in Hr as (r0 & _ & Hid & [[_ ->]|[Hout _]]).
    + apply Hfinal.
    + rewrite Hid in Hin. contradiction.
  - intros l1 f l2 -> Hlast.
    rewrite backup_files_loop_app in Hrun. unfold bind in Hrun.
    destruct (backup_files_loop_spec host config d l1 w)
      as (sigma1 & w1 & _ & Hrun1 & _).
    rewrite Hrun1 in Hrun. cbn [BackupManager.backup_files_loop] in Hrun.
    unfold bind in Hrun.
    destruct (backup_file_spec host config f d w1) as (res & w2 & Hmat & Hf).
    rewrite Hf in Hrun.
    destruct (backup_files_loop_spec host config d l2
                (mkWorld (DatabaseManager.update_file_status (id f)
                            (BackupManager.status_of res) (db w1)) (trace w2)))
      as (sigma2 & w'' & _ & Hrun2 & Hdb2).
    rewrite Hrun2 in Hrun. injection Hrun as <-.
    exists w1, res, w2. split; [exact Hrun1|]. split; [exact Hmat|].
    intros r Hr Hid. rewrite Hdb2 in Hr. cbn [db] in Hr.
    apply restatus_elem in Hr as (r0 & Hr0 & Hid0 & [[Hin _]|[_ ->]]).
    + rewrite <- Hid0, Hid in Hin. contradiction.
    + apply update_file_status_elem in Hr0 as (r1 & _ & Hid1 & [[_ ->]|[Hne _]]).
      * reflexivity.
      * rewrite <- Hid1, Hid in Hne. contradiction.
Qed.

Lemma backup_files_final_statuses_witness :
  BACKUP_DESTINATION Sample.config_bak = Some ["bak"]%string /\
  exists w' : World,
    BackupManager.backup_files Sample.host_copy_a_fails Sample.config_bak
      Sample.small_catalog (mkWorld Sample.small_catalog []) = (Ok tt, w') /\
    forall r, r ∈ db w' -> id r ∈ map id Sample.small_catalog ->
              final_status (status r).
Proof.
  split; [reflexivity|].
  destruct (backup_files_final_statuses Sample.host_copy_a_fails Sample.config_bak
              ["bak"]%string Sample.small_catalog
              (mkWorld Sample.small_catalog []) eq_refl)
    as (sigma & w' & Hrun & _ & _ & Hall & _).
  exists w'. split; [exact Hrun|exact Hall].
Defined.

(** One failing entry among two: the first copy raises, the first row is
    failed, the second entry is still copied and is success. *)
Example backup_files_isolates_failure :
  BackupManager.backup_files Sample.host_copy_a_fails Sample.config_bak
    Sample.small_catalog (mkWorld Sample.small_catalog []) =
  (Ok tt,
   mkWorld [set_status failed Sample.small_row_a; set_status success Sample.small_row_b]
     [(Makedirs ["bak"; "x"], Done);
      (Copy2 ["mnt"; "x"; "a"] ["bak"; "x"; "a"], Fails OSError);
      (Makedirs ["bak"; "y"], Done);
      (Copy2 ["mnt"; "y"; "b"] ["bak"; "y"; "b"], Done)]%string).
Proof. vm_compute. reflexivity. Qed.

(** ** Claims about the space check of start_backup *)

(** C9.  Whatever the selection and the destination, when the free space
    of the destination is less than the sum of the selected sizes, the
    statements of start_backup from the test of the selection on return
    with the world as it was: no row of the catalog has changed and no
    call into the file system has been made.  The function as a whole
    leaves the world as it was too, on this input as on every other: its
    first statement, the call of get_selected_files on the
    DatabaseManager, raises AttributeError. *)
Theorem start_backup_rejects_insufficient_space
    (host : Host) (config : Config) (selected_files : list Row) (w : World) :
  BackupManager.get_free_space host (BACKUP_DESTINATION config)
    < MainWindow.total_size selected_files ->
  MainWindow.start_backup_from host config selected_files w = (Ok tt, w) /\
  MainWindow.start_backup host config w = (Raise OtherError, w).
Proof.
  intros Hspace. split; [|reflexivity].
  unfold MainWindow.start_backup_from.
  destruct selected_files as [|f files]; [reflexivity|].
  apply Z.ltb_lt in Hspace. rewrite Hspace. reflexivity.
Qed.

Lemma start_backup_rejects_insufficient_space_witness :
  let w := mkWorld Sample.fifty_mb_catalog [] in
  MainWindow.total_size Sample.fifty_mb_catalog = 50000000 /\
  BackupManager.get_free_space Sample.host_ten_mb_free
    (BACKUP_DESTINATION Sample.config_bak) = 10000000 /\
  MainWindow.start_backup_from Sample.host_ten_mb_free Sample.config_bak
    Sample.fifty_mb_catalog w = (Ok tt, w) /\
  MainWindow.start_backup Sample.host_ten_mb_free Sample.config_bak w =
    (Raise OtherError, w).
Proof.
  intros w. split; [reflexivity|]. split; [reflexivity|].
  apply start_backup_rejects_insufficient_space. vm_compute. reflexivity.
Defined.

(** C10, as amended.  When querying the disk usage of a path raises,
    get_free_space answers 0 for it; with such a destination the space
    check of start_backup rejects, without touching anything, every
    selection whose sizes sum to more than 0, and it does not reject a
    non-empty selection whose sizes sum to 0: the statement that follows
    the check, the call of backup_files, is reached. *)
Theorem unqueryable_destination_rejects_positive_total
    (host : Host) (config : Config) (selected_files : list Row) (w : World)
    (p : option Path.t) :
  disk_usage host p = None ->
  BackupManager.get_free_space host p = 0 /\
  (BACKUP_DESTINATION config = p ->
   (0 < MainWindow.total_size selected_files ->
    MainWindow.start_backup_from host config selected_files w = (Ok tt, w)) /\
   (selected_files <> [] -> MainWindow.total_size selected_files <= 0 ->
    MainWindow.start_backup_from host config selected_files w =
    BackupManager.backup_files host config selected_files w)).
Proof.
  intros Hraise.
  assert (Hfree : BackupManager.get_free_space host p = 0).
  { unfold BackupManager.get_free_space. rewrite Hraise. reflexivity. }
  split; [exact Hfree|]. intros Hdest.
  unfold MainWindow.start_backup_from. rewrite Hdest, Hfree. split.
  - intros Hpos. destruct selected_files as [|f files]; [reflexivity|].
    apply Z.ltb_lt in Hpos. rewrite Hpos. reflexivity.
  - intros Hne Hzero. destruct selected_files as [|f files]; [contradiction|].
    apply Z.ltb_ge in Hzero. rewrite Hzero. reflexivity.
Qed.

Lemma unqueryable_destination_rejects_positive_total_witness :
  let w := mkWorld Sample.fifty_mb_catalog [] in
  disk_usage Sample.host_unqueryable (Some ["bak"]%string) = None /\
  0 < MainWindow.total_size Sample.fifty_mb_catalog /\
  MainWindow.start_backup_from Sample.host_unqueryable Sample.config_bak
    Sample.fifty_mb_catalog w = (Ok tt, w).
Proof.
  intros w.
  destruct (unqueryable_destination_rejects_positive_total Sample.host_unqueryable
              Sample.config_bak Sample.fifty_mb_catalog w (Some ["bak"]%string) eq_refl)
    as [_ Hcheck].
  split; [reflexivity|]. split; [vm_compute; reflexivity|].
  apply Hcheck; [reflexivity|vm_compute; reflexivity].
Defined.

(** C10 as stated fails for a non-empty selection of total size 0: with
    an unqueryable destination the free space is 0 and the comparison of
    the check is 0 < 0, so the check does not reject the selected empty
    file; what follows the check is the pass of backup_files over it. *)
Lemma unqueryable_destination_check_passes_empty_file :
  let w := mkWorld [Sample.empty_row] [] in
  disk_usage Sample.host_unqueryable (BACKUP_DESTINATION Sample.config_bak) = None /\
  [Sample.empty_row] <> [] /\
  (BackupManager.get_free_space Sample.host_unqueryable
     (BACKUP_DESTINATION Sample.config_bak)
   <? MainWindow.total_size [Sample.empty_row]) = false /\
  MainWindow.start_backup_from Sample.host_unqueryable Sample.config_bak
    [Sample.empty_row] w =
  BackupManager.backup_files Sample.host_unqueryable Sample.config_bak
    [Sample.empty_row] w /\
  MainWindow.start_backup_from Sample.host_unqueryable Sample.config_bak
    [Sample.empty_row] w <> (Ok tt, w).
Proof.
  intros w. split; [reflexivity|]. split; [discriminate|].
  split; [reflexivity|]. split; [reflexivity|]. vm_compute. discriminate.
Qed.

(** ** Claims about links in the destination tree *)

Lemma get_file_by_path_path (p : Path.t) (d : DatabaseManager.t) (r : Row) :
  DatabaseManager.get_file_by_path p d = Some r -> path r = p.
Proof.
  induction d as [|x d IH]; [discriminate|]. cbn [DatabaseManager.get_file_by_path].
  unfold DatabaseManager.path_eqb. destruct (decide (path x = p)) as [E|E].
  - rewrite bool_decide_eq_true_2 by exact E. intros [= <-]. exact E.
  - rewrite bool_decide_eq_false_2 by exact E. exact IH.
Qed.

(** C3, as amended.  For a selected entry of kind symlink (which
    duplicate detection never gives an owner), once the parent directory
    of the destination path exists: the link that is created at the
    destination path has the entry's own source path as its target; when
    os.symlink raises an OSError the entry is copied with copy2 from its
    source path (which follows the link) to the destination path, and its
    status is success or failed by the outcome of that copy; when
    os.symlink raises anything else the entry is failed and nothing is
    copied. *)
Theorem backup_symlink_entry
    (host : Host) (config : Config) (d : Path.t) (f : Row) (w : World) :
  type f = symlink -> content_owner_id f = None ->
  (2 <= recursion_limit host)%nat ->
  let dp := BackupManager.dest_path_of host config d f in
  let mk := Makedirs (Path.dirname dp) in
  let link := Symlink (path f) dp in
  let copy := Copy2 (path f) dp in
  let t0 := trace w in
  let result (s : Status) (t : list Event) : Result unit * World :=
    (Ok tt, mkWorld (DatabaseManager.update_file_status (id f) s (db w)) t) in
  os_outcome host t0 mk = Done ->
  (os_outcome host (t0 ++ [(mk, Done)]) link = Done ->
   BackupManager.backup_file host config f (Some d) w =
     result success (t0 ++ [(mk, Done); (link, Done)])) /\
  (os_outcome host (t0 ++ [(mk, Done)]) link = Fails OSError ->
   let t2 := t0 ++ [(mk, Done); (link, Fails OSError)] in
   os_outcome host t2 mk = Done ->
   forall o, os_outcome host (t2 ++ [(mk, Done)]) copy = o ->
   BackupManager.backup_file host config f (Some d) w =
     result (match o with Done => success | Fails _ => failed end)
            (t2 ++ [(mk, Done); (copy, o)])) /\
  (os_outcome host (t0 ++ [(mk, Done)]) link = Fails OtherError ->
   BackupManager.backup_file host config f (Some d) w =
     result failed (t0 ++ [(mk, Done); (link, Fails OtherError)])).
Proof.
  intros Hty Hown Hlim dp mk link copy t0 result Hmk.
  destruct (recursion_limit host) as [|[|n]] eqn:Elim; [lia|lia|].
  assert (Hrun :
    BackupManager.backup_file host config f (Some d) w =
    match BackupManager.create_symlink host config (S (S n)) f (path f) dp
            (mkWorld (DatabaseManager.update_file_status (id f) copying (db w)) t0) with
    | (Ok _, w1) =>
        (Ok tt, mkWorld (DatabaseManager.update_file_status (id f) success (db w1)) (trace w1))
    | (Raise _, w1) =>
        (Ok tt, mkWorld (DatabaseManager.update_file_status (id f) failed (db w1)) (trace w1))
    end).
  { unfold BackupManager.backup_file, BackupManager.materialize,
      BackupManager.join_destination, bind, ret, try_except, on_db.
    rewrite Hty, Elim. fold dp. cbn [db trace].
    destruct (BackupManager.create_symlink _ _ _ _ _ _ _) as [[[]|e] w1]; reflexivity. }
  rewrite Hrun. clear Hrun.
  cbn [BackupManager.create_symlink BackupManager.copy_file].
  unfold try_except, bind, raise, BackupManager.os_call, BackupManager.has_content_owner.
  rewrite Hown. cbn [db trace]. fold mk link copy. rewrite Hmk. cbn [db trace].
  split; [|split].
  - intros Hlink. rewrite Hlink. cbn [db trace]. unfold result.
    rewrite update_status_twice, <- app_assoc. reflexivity.
  - intros Hlink Hmk2 o Hcopy. rewrite Hlink. cbn [db trace].
    rewrite <- (app_assoc t0). cbn [app]. 
    rewrite Hmk2. cbn [db trace].
    rewrite Hcopy. unfold result.
    destruct o as [|e]; cbn [db trace]; rewrite update_status_twice, <- app_assoc;
      reflexivity.
  - intros Hlink. rewrite Hlink. cbn [db trace]. unfold result.
    rewrite update_status_twice, <- app_assoc. reflexivity.
Qed.

Lemma backup_symlink_entry_witness :
  let w := mkWorld [Sample.link_row] [] in
  let mk := Makedirs ["bak"]%string in
  let link := Symlink ["mnt"; "l"]%string ["bak"; "l"]%string in
  let copy := Copy2 ["mnt"; "l"]%string ["bak"; "l"]%string in
  type Sample.link_row = symlink /\
  content_owner_id Sample.link_row = None /\
  (2 <= recursion_limit Sample.host_no_symlinks)%nat /\
  os_outcome Sample.host_no_symlinks [] mk = Done /\
  os_outcome Sample.host_no_symlinks [(mk, Done)] link = Fails OSError /\
  BackupManager.backup_file Sample.host_no_symlinks Sample.config_bak
    Sample.link_row (Some ["bak"]%string) w =
  (Ok tt,
   mkWorld [set_status success Sample.link_row]
     [(mk, Done); (link, Fails OSError); (mk, Done); (copy, Done)]).
Proof.
  intros w mk link copy.
  assert (Hlim : (2 <= recursion_limit Sample.host_no_symlinks)%nat)
    by (cbn; lia).
  split; [reflexivity|]. split; [reflexivity|]. split; [exact Hlim|].
  split; [reflexivity|]. split; [reflexivity|].
  destruct (backup_symlink_entry Sample.host_no_symlinks Sample.config_bak
              ["bak"]%string Sample.link_row w eq_refl eq_refl Hlim eq_refl)
    as (_ & Hfallback & _).
  exact (Hfallback eq_refl eq_refl Done eq_refl).
Defined.

(** C3 as stated fails on the target of the link: the source link
    /mnt/l points at /mnt/t, and the link created at /bak/l points at
    /mnt/l, the source link itself; what the source link points at is
    never read. *)
Lemma symlink_entry_points_at_source_link :
  let w' := (BackupManager.backup_files Sample.host_link Sample.config_bak
               [Sample.link_row] (mkWorld [Sample.link_row] [])).2 in
  readlink Sample.host_link (path Sample.link_row) = Some ["mnt"; "t"]%string /\
  trace w' = [(Makedirs ["bak"], Done);
              (Symlink ["mnt"; "l"] ["bak"; "l"], Done)]%string /\
  ~ (forall target link,
       (Symlink target link, Done) ∈ trace w' ->
       readlink Sample.host_link (path Sample.link_row) = Some target).
Proof.
  intros w'. split; [reflexivity|]. split; [vm_compute; reflexivity|].
  intros Hall.
  specialize (Hall ["mnt"; "l"]%string ["bak"; "l"]%string).
  discriminate Hall. vm_compute. right. left.
Qed.

(** A duplicate whose own row is found by path, on a host where every
    call succeeds: the link that copy_file creates at the destination path
    of the duplicate has that same path as its target. *)
Lemma copy_file_duplicate_self_link
    (host : Host) (config : Config) (d : Path.t) (f r0 : Row) (w : World) :
  type f = file -> BackupManager.has_content_owner f = true ->
  DatabaseManager.get_file_by_path (path f) (db w) = Some r0 ->
  (forall t c, os_outcome host t c = Done) ->
  (2 <= recursion_limit host)%nat ->
  let dp := BackupManager.dest_path_of host config d f in
  BackupManager.backup_file host config f (Some d) w =
  (Ok tt,
   mkWorld (DatabaseManager.update_file_status (id f) success (db w))
     (trace w ++ [(Makedirs (Path.dirname dp), Done);
                  (Makedirs (Path.dirname dp), Done);
                  (Symlink dp dp, Done)])).
Proof.
  intros Hty Hown Hrow Hok Hlim dp.
  destruct (recursion_limit host) as [|[|n]] eqn:Elim; [lia|lia|].
  pose proof (get_file_by_path_path _ _ _ Hrow) as Hpath.
  unfold BackupManager.backup_file, BackupManager.materialize,
    BackupManager.join_destination, bind, ret, try_except, on_db.
  rewrite Hty, Elim. fold dp.
  cbn [BackupManager.create_symlink BackupManager.copy_file].
  unfold try_except, bind, ret, raise, BackupManager.os_call,
    BackupManager.join_destination.
  rewrite Hown. cbn [db trace].
  repeat (match goal with
          | |- context [os_outcome host ?t ?c] => rewrite (Hok t c)
          end; cbn [db trace]).
  assert (Hrow' : DatabaseManager.get_file_by_path (path f)
            (DatabaseManager.update_file_status (id f) copying (db w))
          = Some (if id r0 =? id f then set_status copying r0 else r0)).
  { clear -Hrow. induction (db w) as [|x l IH]; [discriminate|].
    cbn [DatabaseManager.get_file_by_path] in Hrow.
    unfold DatabaseManager.update_file_status, DatabaseManager.update_where_id.
    cbn [map DatabaseManager.get_file_by_path].
    replace (path (if id x =? id f then set_status copying x else x)) with (path x)
      by (destruct (id x =? id f); reflexivity).
    destruct (DatabaseManager.path_eqb (path x) (path f)).
    - injection Hrow as ->. reflexivity.
    - apply IH. exact Hrow. }
  rewrite Hrow'. cbn [db trace].
  replace (path (if id r0 =? id f then set_status copying r0 else r0)) with (path f)
    by (destruct (id r0 =? id f); cbn; symmetry; exact Hpath).
  unfold ret. cbn [db trace].
  repeat (match goal with
          | |- context [os_outcome host ?t ?c] => rewrite (Hok t c)
          end; cbn [db trace]).
  rewrite update_status_twice.
  rewrite <- !app_assoc. reflexivity.
Qed.

(** C1, at the failing input.  Two files with the same content under
    /mnt/x and /mnt/y; detection makes b a duplicate of a (id 1).  The
    backup copies a to /bak/x/a, and for b it creates at /bak/y/b a link
    whose target is /bak/y/b itself, not /bak/x/a: copy_file looks the
    "original file" up by the duplicate's own path. *)
Theorem backup_duplicate_links_to_itself :
  Sample.small_detected =
    [set_hash (Some "9"%string) Sample.small_row_a;
     set_content_owner (Some 1) (set_hash (Some "9"%string) Sample.small_row_b)] /\
  BackupManager.backup_files Sample.host_ok Sample.config_bak
    Sample.small_detected (mkWorld Sample.small_detected []) =
  (Ok tt,
   mkWorld (map (set_status success) Sample.small_detected)
     [(Makedirs ["bak"; "x"], Done);
      (Copy2 ["mnt"; "x"; "a"] ["bak"; "x"; "a"], Done);
      (Makedirs ["bak"; "y"], Done);
      (Makedirs ["bak"; "y"], Done);
      (Symlink ["bak"; "y"; "b"] ["bak"; "y"; "b"], Done)]%string).
Proof. split; vm_compute; reflexivity. Qed.

(** * Further properties of the code *)

(** ** database_manager.py *)

Lemma next_id_above (d : DatabaseManager.t) (r : Row) :
  r ∈ d -> id r < DatabaseManager.next_id d.
Proof.
  unfold DatabaseManager.next_id. induction d as [|x d IH]; intros Hr.
  - inversion Hr.
  - cbn [foldr]. apply elem_of_cons in Hr as [->|Hr]; [lia|].
    specialize (IH Hr). lia.
Qed.

Lemma get_file_by_path_elem (p : Path.t) (d : DatabaseManager.t) (r : Row) :
  DatabaseManager.get_file_by_path p d = Some r -> r ∈ d.
Proof.
  induction d as [|x d IH]; [discriminate|]. cbn [DatabaseManager.get_file_by_path].
  destruct (DatabaseManager.path_eqb (path x) p).
  - intros [= <-]. left.
  - intros H. right. apply IH. exact H.
Qed.

Lemma get_file_by_path_none (p : Path.t) (d : DatabaseManager.t) :
  DatabaseManager.get_file_by_path p d = None <-> p ∉ map path d.
Proof.
  induction d as [|x d IH]; cbn [DatabaseManager.get_file_by_path map].
  - split; [intros _; apply not_elem_of_nil|reflexivity].
  - unfold DatabaseManager.path_eqb. destruct (decide (path x = p)) as [E|E].
    + rewrite bool_decide_eq_true_2 by exact E. split; [discriminate|].
      intros H. exfalso. apply H. rewrite E. left.
    + rewrite bool_decide_eq_false_2 by exact E. rewrite IH. split.
      * intros H Hin. apply elem_of_cons in Hin as [Hin|Hin]; [congruence|contradiction].
      * intros H Hin. apply H. right. exact Hin.
Qed.

Lemma get_file_by_path_app (p : Path.t) (d1 d2 : DatabaseManager.t) :
  DatabaseManager.get_file_by_path p (d1 ++ d2) =
  match DatabaseManager.get_file_by_path p d1 with
  | Some r => Some r
  | None => DatabaseManager.get_file_by_path p d2
  end.
Proof.
  induction d1 as [|x d1 IH]; [reflexivity|].
  cbn [app DatabaseManager.get_file_by_path].
  destruct (DatabaseManager.path_eqb (path x) p); [reflexivity|exact IH].
Qed.

(** X1.  get_file_by_path answers the first row of the table that has the
    path, and None exactly when no row has it. *)
Theorem get_file_by_path_first_match (p : Path.t) (d : DatabaseManager.t) :
  match DatabaseManager.get_file_by_path p d with
  | Some r =>
      exists l1 l2, d = l1 ++ r :: l2 /\ path r = p /\ p ∉ map path l1
  | None => forall r, r ∈ d -> path r <> p
  end.
Proof.
  induction d as [|x d IH]; cbn [DatabaseManager.get_file_by_path].
  - intros r Hr. inversion Hr.
  - unfold DatabaseManager.path_eqb. destruct (decide (path x = p)) as [E|E].
    + rewrite bool_decide_eq_true_2 by exact E.
      exists [], d. split; [reflexivity|]. split; [exact E|apply not_elem_of_nil].
    + rewrite bool_decide_eq_false_2 by exact E.
      destruct (DatabaseManager.get_file_by_path p d) as [r|].
      * destruct IH as (l1 & l2 & -> & Hp & Hnot).
        exists (x :: l1), l2. split; [reflexivity|]. split; [exact Hp|].
        cbn [map]. intros Hin. apply elem_of_cons in Hin as [Hin|Hin];
          [congruence|contradiction].
      * intros r Hr. apply elem_of_cons in Hr as [->|Hr]; [exact E|apply IH; exact Hr].
Qed.

(** X2.  Inserting a path that is not in the table and looking it up gives
    back the inserted columns, under an id larger than every id in use;
    looking up any other path answers as before the insert. *)
Theorem insert_file_then_get_file_by_path
    (nm : string) (p : Path.t) (sz : Z) (ty : Kind) (st : Status)
    (parent : option Z) (h : option string) (isl : Z) (o : option Z)
    (d : DatabaseManager.t) :
  DatabaseManager.get_file_by_path p d = None ->
  let d' := DatabaseManager.insert_file nm p sz ty st parent h isl o d in
  let r := mkRow (DatabaseManager.next_id d) nm p sz ty st parent h isl o in
  DatabaseManager.get_file_by_path p d' = Some r /\
  (forall x, x ∈ d -> id x < id r) /\
  (forall q, q <> p ->
     DatabaseManager.get_file_by_path q d' = DatabaseManager.get_file_by_path q d).
Proof.
  intros Hnew d' r. unfold d', DatabaseManager.insert_file. rewrite Hnew.
  fold r. split; [|split].
  - rewrite get_file_by_path_app, Hnew. cbn [DatabaseManager.get_file_by_path].
    unfold DatabaseManager.path_eqb. rewrite bool_decide_eq_true_2 by reflexivity.
    reflexivity.
  - intros x Hx. apply next_id_above. exact Hx.
  - intros q Hq. rewrite get_file_by_path_app.
    destruct (DatabaseManager.get_file_by_path q d); [reflexivity|].
    cbn [DatabaseManager.get_file_by_path]. unfold DatabaseManager.path_eqb.
    rewrite bool_decide_eq_false_2; [reflexivity|].
    cbn. intros E. apply Hq. symmetry. exact E.
Qed.

Lemma insert_file_then_get_file_by_path_witness :
  DatabaseManager.get_file_by_path ["mnt"; "z"]%string Sample.small_catalog = None /\
  DatabaseManager.get_file_by_path ["mnt"; "z"]%string
    (DatabaseManager.insert_file "z" ["mnt"; "z"]%string 7 file pending None None 0 None
       Sample.small_catalog)
  = Some (mkRow 3 "z" ["mnt"; "z"]%string 7 file pending None None 0 None).
Proof.
  split; [reflexivity|].
  apply (insert_file_then_get_file_by_path "z" ["mnt"; "z"]%string 7 file pending
           None None 0 None Sample.small_catalog eq_refl).
Defined.

(** X3.  The UNIQUE path column and the AUTOINCREMENT id: on a table whose
    paths and ids are pairwise distinct, insert_file keeps them so, and a
    second insert of the same path is rejected whatever its other columns
    are, leaving the row of the first insert. *)
Theorem insert_file_keeps_unique
    (nm nm2 : string) (p : Path.t) (sz sz2 : Z) (ty ty2 : Kind) (st st2 : Status)
    (parent parent2 : option Z) (h h2 : option string) (isl isl2 : Z)
    (o o2 : option Z) (d : DatabaseManager.t) :
  NoDup (map path d) -> NoDup (map id d) ->
  let d' := DatabaseManager.insert_file nm p sz ty st parent h isl o d in
  NoDup (map path d') /\ NoDup (map id d') /\
  DatabaseManager.insert_file nm2 p sz2 ty2 st2 parent2 h2 isl2 o2 d' = d'.
Proof.
  intros Hpaths Hids d'. unfold d', DatabaseManager.insert_file.
  destruct (DatabaseManager.get_file_by_path p d) as [r|] eqn:Hget.
  - split; [exact Hpaths|]. split; [exact Hids|]. rewrite Hget. reflexivity.
  - split; [|split].
    + rewrite map_app. cbn [map]. apply NoDup_app.
      split; [exact Hpaths|]. split; [|apply NoDup_singleton].
      intros q Hq Hin. apply list_elem_of_singleton in Hin. cbn in Hin. subst q.
      apply get_file_by_path_none in Hget. contradiction.
    + rewrite map_app. cbn [map]. apply NoDup_app.
      split; [exact Hids|]. split; [|apply NoDup_singleton].
      intros k Hk Hin. apply list_elem_of_singleton in Hin. cbn in Hin. subst k.
      apply list_elem_of_fmap in Hk as (x & Hid & Hx).
      pose proof (next_id_above d x Hx). lia.
    + rewrite get_file_by_path_app, Hget. cbn [DatabaseManager.get_file_by_path].
      unfold DatabaseManager.path_eqb. rewrite bool_decide_eq_true_2 by reflexivity.
      reflexivity.
Qed.

Lemma small_catalog_unique :
  NoDup (map path Sample.small_catalog) /\ NoDup (map id Sample.small_catalog).
Proof.
  split; (apply NoDup_cons; split; [|apply NoDup_singleton]);
    intros H; apply list_elem_of_singleton in H; discriminate H.
Qed.

Lemma insert_file_keeps_unique_witness :
  NoDup (map path Sample.small_catalog) /\ NoDup (map id Sample.small_catalog) /\
  NoDup (map id (DatabaseManager.insert_file "z" ["mnt"; "z"]%string 7 file pending
                   None None 0 None Sample.small_catalog)).
Proof.
  destruct small_catalog_unique as [Hp Hi].
  split; [exact Hp|]. split; [exact Hi|].
  apply (insert_file_keeps_unique "z" "z" ["mnt"; "z"]%string 7 7 file file pending
           pending None None None None 0 0 None None Sample.small_catalog Hp Hi).
Defined.

Lemma update_where_id_frame (g : Row -> Row) (k : Z) (d : DatabaseManager.t) :
  (forall r, id (g r) = id r /\ path (g r) = path r) ->
  let d' := DatabaseManager.update_where_id g k d in
  length d' = length d /\ map id d' = map id d /\ map path d' = map path d /\
  (forall i r, d !! i = Some r -> id r <> k -> d' !! i = Some r) /\
  (forall r', r' ∈ d' -> id r' = k -> exists r, r ∈ d /\ id r = k /\ r' = g r) /\
  (k ∉ map id d -> d' = d).
Proof.
  intros Hg d'. unfold d', DatabaseManager.update_where_id.
  split; [apply length_map|]. split; [|split; [|split; [|split]]].
  - rewrite map_map. apply map_ext. intros r.
    destruct (id r =? k); [apply Hg|reflexivity].
  - rewrite map_map. apply map_ext. intros r.
    destruct (id r =? k); [apply Hg|reflexivity].
  - intros i r Hi Hne. rewrite (list_lookup_fmap _ d i), Hi. cbn.
    apply Z.eqb_neq in Hne. rewrite Hne. reflexivity.
  - intros r' Hr' Hid. apply list_elem_of_fmap in Hr' as (r & -> & Hr).
    destruct (Z.eqb_spec (id r) k) as [E|E].
    + exists r. split; [exact Hr|]. split; [exact E|reflexivity].
    + contradiction.
  - intros Hnot. apply update_where_id_other. intros r Hr E. apply Hnot.
    rewrite <- E. apply list_elem_of_fmap. eauto.
Qed.

(** X4.  update_file_status, update_file_hash and update_file_content_owner
    keep the number of rows, the ids and the paths; they leave every row
    with another id as it is, write their value into every row with the
    given id and change no other column of it; and with an id that is not
    in the table they change nothing. *)
Theorem update_methods_touch_one_id
    (k : Z) (s : Status) (h : option string) (o : Z) (d : DatabaseManager.t) :
  let frame (d' : DatabaseManager.t) (g : Row -> Row) : Prop :=
    length d' = length d /\ map id d' = map id d /\ map path d' = map path d /\
    (forall i r, d !! i = Some r -> id r <> k -> d' !! i = Some r) /\
    (forall r', r' ∈ d' -> id r' = k -> exists r, r ∈ d /\ id r = k /\ r' = g r) /\
    (k ∉ map id d -> d' = d) in
  frame (DatabaseManager.update_file_status k s d) (set_status s) /\
  frame (DatabaseManager.update_file_hash k h d) (set_hash h) /\
  frame (DatabaseManager.update_file_content_owner k o d) (set_content_owner (Some o)).
Proof.
  intros frame. unfold frame.
  split; [|split]; apply update_where_id_frame; intros r; split; reflexivity.
Qed.

(** ** file_scanner.py: scanning *)

Section ScanFacts.

Import DatabaseManager FileScanner.

(** What add_entry_to_database keeps for every argument, the whole scan
    keeps. *)
Lemma scan_entry_preserves (P : t -> Prop) :
  (forall entry file_type parent isl d,
      P d -> P (add_entry_to_database entry file_type parent isl d).2) ->
  forall (entry : DirEntry) (parent : option Z) (d : t),
    P d -> P (scan_entry parent entry d).
Proof.
  intros Hadd. fix IH 1. intros [nm p isd isf isl st listing] parent d Hd.
  cbn [scan_entry].
  set (entry := mkDirEntry nm p isd isf isl st listing).
  destruct isd.
  - pose proof (Hadd entry folder parent 0 d Hd) as H1.
    destruct (add_entry_to_database entry folder parent 0 d) as [file_id d1].
    cbn [snd] in H1. destruct listing as [entries|]; [|exact H1].
    clear entry. revert d1 H1.
    induction entries as [|e entries IHes]; intros d1 H1; [exact H1|].
    apply IHes. apply IH. exact H1.
  - destruct isf; [apply Hadd; exact Hd|].
    destruct isl; [apply Hadd; exact Hd|exact Hd].
Qed.

Lemma scan_directory_preserves (P : t -> Prop) :
  (forall entry file_type parent isl d,
      P d -> P (add_entry_to_database entry file_type parent isl d).2) ->
  forall listing parent (d : t), P d -> P (scan_directory listing parent d).
Proof.
  intros Hadd listing parent d Hd.
  destruct listing as [entries|]; [|exact Hd]. cbn [scan_directory].
  revert d Hd. induction entries as [|e entries IH]; intros d Hd; [exact Hd|].
  cbn [foldl]. apply IH. apply scan_entry_preserves; assumption.
Qed.

Lemma scan_extends_refl (d : t) : scan_extends d d.
Proof.
  exists []. split; [symmetry; apply app_nil_r|]. intros r Hr. inversion Hr.
Qed.

Lemma insert_file_unique nm p sz ty st parent h isl o (d : t) :
  unique_keys d -> unique_keys (insert_file nm p sz ty st parent h isl o d).
Proof.
  intros [Hpaths Hids]. unfold insert_file.
  destruct (get_file_by_path p d) as [r|] eqn:Hget; [split; assumption|].
  split.
  - rewrite map_app. cbn [map]. apply NoDup_app.
    split; [exact Hpaths|]. split; [|apply NoDup_singleton].
    intros q Hq Hin. apply list_elem_of_singleton in Hin. cbn in Hin. subst q.
    apply get_file_by_path_none in Hget. contradiction.
  - rewrite map_app. cbn [map]. apply NoDup_app.
    split; [exact Hids|]. split; [|apply NoDup_singleton].
    intros k Hk Hin. apply list_elem_of_singleton in Hin. cbn in Hin. subst k.
    apply list_elem_of_fmap in Hk as (x & Hid & Hx).
    pose proof (next_id_above d x Hx). lia.
Qed.

(** add_entry_to_database leaves the table as it is or appends one row. *)
Lemma add_entry_cases entry file_type parent isl (d : t) :
  (add_entry_to_database entry file_type parent isl d).2 = d \/
  exists sz,
    (add_entry_to_database entry file_type parent isl d).2 =
    insert_file (entry_name entry) (entry_path entry) sz file_type pending parent
      None isl None d.
Proof.
  unfold add_entry_to_database.
  destruct (if bool_decide (file_type ≠ symlink) then st_size entry else Some 0)
    as [sz|]; [|left; reflexivity].
  right. exists sz. destruct (get_file_by_path _ _); reflexivity.
Qed.

Lemma add_entry_extends (d0 : t) entry file_type parent isl (d : t) :
  scan_extends d0 d ->
  scan_extends d0 (add_entry_to_database entry file_type parent isl d).2.
Proof.
  intros (added & -> & Hadded).
  destruct (add_entry_cases entry file_type parent isl (d0 ++ added)) as [->|[sz ->]].
  - exists added. split; [reflexivity|exact Hadded].
  - unfold insert_file. destruct (get_file_by_path _ _).
    + exists added. split; [reflexivity|exact Hadded].
    + exists (added ++ [mkRow (next_id (d0 ++ added)) (entry_name entry)
                          (entry_path entry) sz file_type pending parent None isl None]).
      split; [symmetry; apply app_assoc|]. intros r Hr.
      apply elem_of_app in Hr as [Hr|Hr]; [apply Hadded; exact Hr|].
      apply list_elem_of_singleton in Hr. subst r. repeat split.
Qed.

Lemma add_entry_unique entry file_type parent isl (d : t) :
  unique_keys d -> unique_keys (add_entry_to_database entry file_type parent isl d).2.
Proof.
  intros Hd. destruct (add_entry_cases entry file_type parent isl d) as [->|[sz ->]];
    [exact Hd|apply insert_file_unique; exact Hd].
Qed.

End ScanFacts.

(** X5.  Scanning only appends: the catalog it returns is the old catalog,
    row for row, followed by new rows, and every new row is pending with no
    hash and no content owner. *)
Theorem scan_directory_appends_fresh_rows
    (listing : option (list FileScanner.DirEntry)) (parent : option Z)
    (d : DatabaseManager.t) :
  scan_extends d (FileScanner.scan_directory listing parent d).
Proof.
  apply (scan_directory_preserves (scan_extends d)).
  - intros entry file_type parent' isl d'. apply add_entry_extends.
  - apply scan_extends_refl.
Qed.

(** X6.  Scanning keeps the paths of the catalog pairwise distinct and its
    ids pairwise distinct, whatever the scanned tree holds. *)
Theorem scan_directory_keeps_unique_keys
    (listing : option (list FileScanner.DirEntry)) (parent : option Z)
    (d : DatabaseManager.t) :
  unique_keys d -> unique_keys (FileScanner.scan_directory listing parent d).
Proof.
  apply (scan_directory_preserves unique_keys).
  intros entry file_type parent' isl d'. apply add_entry_unique.
Qed.

Lemma scan_directory_keeps_unique_keys_witness :
  unique_keys [] /\
  unique_keys (FileScanner.scan_directory (Some Sample.docs_listing) None []).
Proof.
  assert (H0 : unique_keys []) by (split; apply NoDup_nil_2).
  split; [exact H0|].
  apply (scan_directory_keeps_unique_keys (Some Sample.docs_listing) None [] H0).
Defined.

(** X7.  Scanning into an empty catalog and then detecting duplicates, with
    any threshold and any hash calculator, gives a catalog in canonical
    form: per hash value one first row without owner, and every later row
    with that hash owned directly by it. *)
Theorem scan_then_find_duplicates_canonical
    (listing : option (list FileScanner.DirEntry)) (parent : option Z)
    (size_threshold : Z) (calculate_hash : Path.t -> Z -> option string) :
  canonical_form
    (FileScanner.find_duplicates size_threshold calculate_hash
       (FileScanner.scan_directory listing parent [])).
Proof.
  set (d := FileScanner.scan_directory listing parent []).
  assert (Hu : unique_keys d).
  { apply (scan_directory_preserves unique_keys).
    - intros entry file_type parent' isl d'. apply add_entry_unique.
    - split; apply NoDup_nil_2. }
  assert (Hfresh : fresh d).
  { destruct (scan_directory_preserves (scan_extends [])
                (fun entry ty p isl d' => add_entry_extends [] entry ty p isl d')
                listing parent [] (scan_extends_refl []))
      as (added & Hd & Hadded).
    fold d in Hd. rewrite Hd. cbn [app]. intros r Hr.
    destruct (Hadded r Hr) as (_ & Hh & Ho). split; assumption. }
  destruct Hu as [_ Hids].
  destruct (loop_canonical size_threshold calculate_hash d ∅ [] Hids Hfresh
              (loop_inv_empty size_threshold))
    as (hashes' & done' & Hrun & Hinv & Hids').
  unfold FileScanner.find_duplicates, DatabaseManager.get_all_files.
  cbn [app] in Hrun. rewrite Hrun. cbn [snd].
  apply (loop_inv_canonical_form size_threshold hashes'); [|exact Hinv].
  rewrite Hids'. exact Hids.
Qed.

Section ParentsFirst.

Import DatabaseManager FileScanner.

Variable p0 : option Z.
Variable d0 : t.

(** The parent id handed down the recursion is known to the table. *)
Local Abbreviation parent_ok parent d :=
  (parent = p0 \/ parent = None \/
   exists (j : nat) (r' : Row), d !! j = Some r' /\ parent = Some (id r')).

#[warnings="-inconsistent-scopes"] Local Abbreviation inv d :=
  (d0 `prefix_of` d /\ parents_first p0 (length d0) d).

Lemma parent_ok_prefix parent (d d' : t) :
  d `prefix_of` d' -> parent_ok parent d -> parent_ok parent d'.
Proof.
  intros Hpre [H|[H|(j & r' & Hj & H)]]; [left; exact H|right; left; exact H|].
  right. right. exists j, r'. split; [|exact H].
  apply (prefix_lookup_Some d d' j r' Hj Hpre).
Qed.

Lemma insert_file_parents nm p sz ty st parent h isl o (d : t) :
  inv d -> parent_ok parent d ->
  inv (insert_file nm p sz ty st parent h isl o d) /\
  d `prefix_of` insert_file nm p sz ty st parent h isl o d.
Proof.
  intros [Hpre Hpar] Hok. unfold insert_file.
  destruct (get_file_by_path p d); [split; [split; assumption|reflexivity]|].
  split; [split|].
  - apply prefix_app_r. exact Hpre.
  - intros i r Hi Hn. apply lookup_app_Some in Hi as [Hi|[Hlen Hi]].
    + destruct (Hpar i r Hi Hn) as [H|[H|(j & r' & Hj & Hj' & H)]];
        [left; exact H|right; left; exact H|].
      right. right. exists j, r'. split; [exact Hj|]. split; [|exact H].
      apply lookup_app_l_Some. exact Hj'.
    + destruct (i - length d)%nat as [|n] eqn:En; [|destruct n; discriminate Hi].
      injection Hi as <-. cbn [parent_id].
      destruct Hok as [H|[H|(j & r' & Hj & H)]];
        [left; exact H|right; left; exact H|].
      right. right. exists j, r'. split; [|split; [|exact H]].
      * apply lookup_lt_Some in Hj. lia.
      * apply lookup_app_l_Some. exact Hj.
  - apply prefix_app_r. reflexivity.
Qed.

Lemma add_entry_parents entry file_type parent isl (d : t) :
  inv d -> parent_ok parent d ->
  let res := add_entry_to_database entry file_type parent isl d in
  inv res.2 /\ d `prefix_of` res.2 /\ parent_ok res.1 res.2.
Proof.
  intros Hinv Hok. unfold add_entry_to_database.
  destruct (if bool_decide (file_type ≠ symlink) then st_size entry else Some 0)
    as [sz|].
  - destruct (insert_file_parents (entry_name entry) (entry_path entry) sz file_type
                pending parent None isl None d Hinv Hok) as [Hinv' Hpre].
    destruct (get_file_by_path _ _) as [file_data|] eqn:Hget; cbn [fst snd].
    + split; [exact Hinv'|]. split; [exact Hpre|].
      right. right. apply get_file_by_path_elem in Hget.
      apply list_elem_of_lookup in Hget as [j Hj]. exists j, file_data.
      split; [exact Hj|reflexivity].
    + split; [exact Hinv'|]. split; [exact Hpre|]. right. left. reflexivity.
  - cbn [fst snd]. split; [exact Hinv|]. split; [reflexivity|].
    right. left. reflexivity.
Qed.

Lemma scan_entry_parents :
  forall (entry : DirEntry) (parent : option Z) (d : t),
    inv d -> parent_ok parent d ->
    inv (scan_entry parent entry d) /\ d `prefix_of` scan_entry parent entry d.
Proof.
  fix IH 1. intros [nm p isd isf isl st listing] parent d Hinv Hok.
  cbn [scan_entry].
  set (entry := mkDirEntry nm p isd isf isl st listing).
  destruct isd.
  - destruct (add_entry_parents entry folder parent 0 d Hinv Hok)
      as (H1 & Hpre1 & Hok1).
    destruct (add_entry_to_database entry folder parent 0 d) as [file_id d1].
    cbn [fst snd] in *. destruct listing as [entries|]; [|split; assumption].
    clear entry. revert d1 H1 Hpre1 Hok1.
    induction entries as [|e entries IHes]; intros d1 H1 Hpre1 Hok1;
      [split; assumption|].
    destruct (IH e file_id d1 H1 Hok1) as [H2 Hpre2].
    apply IHes; [exact H2|etransitivity; eassumption|].
    apply (parent_ok_prefix _ d1); assumption.
  - destruct isf.
    + destruct (add_entry_parents entry file parent 0 d Hinv Hok) as (H1 & Hpre1 & _).
      split; assumption.
    + destruct isl; [|split; [exact Hinv|reflexivity]].
      destruct (add_entry_parents entry symlink parent 1 d Hinv Hok) as (H1 & Hpre1 & _).
      split; assumption.
Qed.

Lemma scan_directory_parents listing (d : t) :
  inv d -> inv (scan_directory listing p0 d).
Proof.
  destruct listing as [entries|]; [|trivial]. cbn [scan_directory].
  revert d. induction entries as [|e entries IH]; intros d Hinv; [exact Hinv|].
  cbn [foldl]. apply IH. apply scan_entry_parents; [exact Hinv|left; reflexivity].
Qed.

End ParentsFirst.

(** X8.  Scanning inserts parents before children: every row that a scan
    adds has as parent_id the id handed to the scan, or nothing (the row
    of its folder could not be created), or the id of a row that stands
    before it in the catalog. *)
Theorem scan_directory_parents_first
    (listing : option (list FileScanner.DirEntry)) (parent : option Z)
    (d : DatabaseManager.t) :
  parents_first parent (length d) (FileScanner.scan_directory listing parent d).
Proof.
  apply (scan_directory_parents parent d listing d). split; [reflexivity|].
  intros i r Hi Hn. apply lookup_lt_Some in Hi. lia.
Qed.

Section Rescan.

Import DatabaseManager FileScanner.

Lemma settled_listing (d : t) (es : list DirEntry) :
  (fix all (es : list DirEntry) : Prop :=
     match es with
     | [] => True
     | e :: es' => settled d e /\ all es'
     end) es <-> Forall (settled d) es.
Proof.
  induction es as [|e es IH]; [split; [constructor|trivial]|].
  rewrite Forall_cons, IH. reflexivity.
Qed.

(** The loop over the listing of a folder is the loop of scan_directory. *)
Lemma scan_entry_folder nm p isf isl st listing parent (d : t) :
  scan_entry parent (mkDirEntry nm p true isf isl st listing) d =
  let '(file_id, d1) :=
    add_entry_to_database (mkDirEntry nm p true isf isl st listing) folder parent 0 d in
  scan_directory listing file_id d1.
Proof.
  cbn [scan_entry].
  destruct (add_entry_to_database _ folder parent 0 d) as [file_id d1].
  destruct listing as [entries|]; [|reflexivity]. cbn [scan_directory].
  revert d1. induction entries as [|e entries IH]; intros d1; [reflexivity|].
  cbn [foldl]. apply IH.
Qed.

Lemma scan_entry_paths entry parent (d : t) (q : Path.t) :
  q ∈ map path d -> q ∈ map path (scan_entry parent entry d).
Proof.
  intros Hq.
  destruct (scan_entry_preserves (scan_extends d)
              (fun e ty p isl d' => add_entry_extends d e ty p isl d')
              entry parent d (scan_extends_refl d)) as (added & -> & _).
  rewrite map_app. apply elem_of_app. left. exact Hq.
Qed.

Lemma scan_directory_paths listing parent (d : t) (q : Path.t) :
  q ∈ map path d -> q ∈ map path (scan_directory listing parent d).
Proof.
  intros Hq.
  destruct (scan_directory_preserves (scan_extends d)
              (fun e ty p isl d' => add_entry_extends d e ty p isl d')
              listing parent d (scan_extends_refl d)) as (added & -> & _).
  rewrite map_app. apply elem_of_app. left. exact Hq.
Qed.

Lemma settled_mono :
  forall (entry : DirEntry) (d d' : t),
    (forall q, q ∈ map path d -> q ∈ map path d') ->
    settled d entry -> settled d' entry.
Proof.
  fix IH 1. intros [nm p isd isf isl st listing] d d' Hsub. cbn [settled].
  destruct isd.
  - intros [Hhead Hall]. split; [destruct Hhead; [left|right; apply Hsub]; assumption|].
    destruct listing as [entries|]; [|trivial].
    induction entries as [|e entries IHes]; [trivial|].
    destruct Hall as [He Hes]. split; [apply (IH e d d' Hsub He)|apply IHes; exact Hes].
  - destruct isf; [intros [H|H]; [left|right; apply Hsub]; assumption|].
    destruct isl; [apply Hsub|trivial].
Qed.

(** After add_entry_to_database the path is in the table unless stat
    raised. *)
Lemma add_entry_settles entry file_type parent isl (d : t) :
  (file_type <> symlink /\ st_size entry = None) \/
  entry_path entry ∈ map path (add_entry_to_database entry file_type parent isl d).2.
Proof.
  unfold add_entry_to_database.
  destruct (decide (file_type = symlink)) as [E|E].
  - right. rewrite bool_decide_eq_false_2 by (intros H; apply H; exact E).
    assert (Hin : entry_path entry ∈ map path
              (insert_file (entry_name entry) (entry_path entry) 0 file_type pending
                 parent None isl None d)).
    { unfold insert_file.
      destruct (get_file_by_path (entry_path entry) d) as [r|] eqn:Hget.
      - apply list_elem_of_fmap. exists r. split.
        + symmetry. apply (get_file_by_path_path _ _ _ Hget).
        + apply (get_file_by_path_elem _ _ _ Hget).
      - rewrite map_app. apply elem_of_app. right. left. }
    destruct (get_file_by_path _ _); exact Hin.
  - rewrite bool_decide_eq_true_2 by exact E.
    destruct (st_size entry) as [sz|]; [right|left; split; [exact E|reflexivity]].
    assert (Hin : entry_path entry ∈ map path
              (insert_file (entry_name entry) (entry_path entry) sz file_type pending
                 parent None isl None d)).
    { unfold insert_file.
      destruct (get_file_by_path (entry_path entry) d) as [r|] eqn:Hget.
      - apply list_elem_of_fmap. exists r. split.
        + symmetry. apply (get_file_by_path_path _ _ _ Hget).
        + apply (get_file_by_path_elem _ _ _ Hget).
      - rewrite map_app. apply elem_of_app. right. left. }
    destruct (get_file_by_path _ _); exact Hin.
Qed.

(** An entry whose path is in the table, or whose stat raises, adds
    nothing. *)
Lemma add_entry_noop entry file_type parent isl (d : t) :
  (file_type <> symlink /\ st_size entry = None) \/ entry_path entry ∈ map path d ->
  (add_entry_to_database entry file_type parent isl d).2 = d.
Proof.
  intros Hcase. unfold add_entry_to_database.
  assert (Hins : entry_path entry ∈ map path d -> forall sz,
            insert_file (entry_name entry) (entry_path entry) sz file_type pending
              parent None isl None d = d).
  { intros Hin sz. unfold insert_file.
    destruct (get_file_by_path (entry_path entry) d) eqn:Hget; [reflexivity|].
    apply get_file_by_path_none in Hget. contradiction. }
  destruct Hcase as [[Hty Hst]|Hin].
  - rewrite bool_decide_eq_true_2 by exact Hty. rewrite Hst. reflexivity.
  - destruct (if bool_decide (file_type ≠ symlink) then st_size entry else Some 0)
      as [sz|]; [|reflexivity].
    rewrite (Hins Hin sz). destruct (get_file_by_path _ _); reflexivity.
Qed.

Lemma scan_settles :
  forall (entry : DirEntry) (parent : option Z) (d : t),
    settled (scan_entry parent entry d) entry.
Proof.
  fix IH 1. intros [nm p isd isf isl st listing] parent d.
  destruct isd.
  - rewrite scan_entry_folder.
    pose proof (add_entry_settles (mkDirEntry nm p true isf isl st listing)
                  folder parent 0 d) as Hadd.
    destruct (add_entry_to_database _ folder parent 0 d) as [file_id d1].
    cbn [snd entry_path st_size] in Hadd. cbn [settled]. split.
    + destruct Hadd as [[_ Hst]|Hin]; [left; exact Hst|right].
      apply scan_directory_paths. exact Hin.
    + destruct listing as [entries|]; [|trivial]. apply settled_listing.
      cbn [scan_directory]. clear Hadd. revert d1.
      induction entries as [|e entries IHes]; intros d1; [constructor|].
      cbn [foldl]. apply Forall_cons. split; [|apply IHes].
      apply (settled_mono e (scan_entry file_id e d1)); [|apply IH].
      intros q Hq. apply (scan_directory_paths (Some entries)). exact Hq.
  - cbn [scan_entry settled]. destruct isf.
    + destruct (add_entry_settles (mkDirEntry nm p false true isl st listing)
                  file parent 0 d) as [[_ Hst]|Hin]; [left; exact Hst|right; exact Hin].
    + destruct isl; [|trivial].
      destruct (add_entry_settles (mkDirEntry nm p false false true st listing)
                  symlink parent 1 d) as [[Hty _]|Hin]; [congruence|exact Hin].
Qed.

Lemma scan_settled_noop :
  forall (entry : DirEntry) (parent : option Z) (d : t),
    settled d entry -> scan_entry parent entry d = d.
Proof.
  fix IH 1. intros [nm p isd isf isl st listing] parent d.
  destruct isd.
  - rewrite scan_entry_folder. cbn [settled]. intros [Hhead Hall].
    pose proof (add_entry_noop (mkDirEntry nm p true isf isl st listing)
                  folder parent 0 d) as Hadd.
    destruct (add_entry_to_database _ folder parent 0 d) as [file_id d1].
    cbn [snd entry_path st_size] in Hadd. rewrite Hadd; cycle 1.
    { destruct Hhead as [Hst|Hin]; [left; split; [discriminate|exact Hst]|right; exact Hin]. }
    destruct listing as [entries|]; [|reflexivity]. cbn [scan_directory].
    apply settled_listing in Hall.
    induction entries as [|e entries IHes]; [reflexivity|].
    apply Forall_cons in Hall as [He Hes]. cbn [foldl].
    rewrite (IH e file_id d He). apply IHes. exact Hes.
  - cbn [scan_entry settled]. destruct isf.
    + intros Hcase. apply add_entry_noop.
      destruct Hcase as [Hst|Hin]; [left; split; [discriminate|exact Hst]|right; exact Hin].
    + destruct isl; [|reflexivity]. intros Hin. apply add_entry_noop. right. exact Hin.
Qed.

End Rescan.

(** X9.  Scanning the same tree a second time adds nothing, whatever
    parent id the second scan is given: every insert of the second scan
    is rejected by the UNIQUE path column (or its stat raises as before),
    and the catalog stays as the first scan left it. *)
Theorem scan_directory_twice
    (listing : option (list FileScanner.DirEntry)) (parent parent' : option Z)
    (d : DatabaseManager.t) :
  FileScanner.scan_directory listing parent'
    (FileScanner.scan_directory listing parent d)
  = FileScanner.scan_directory listing parent d.
Proof.
  destruct listing as [entries|]; [|reflexivity].
  assert (Hall : Forall (settled (FileScanner.scan_directory (Some entries) parent d))
                   entries).
  { cbn [FileScanner.scan_directory]. revert d.
    induction entries as [|e entries IH]; intros d; [constructor|].
    cbn [foldl]. apply Forall_cons. split; [|apply IH].
    apply (settled_mono e (FileScanner.scan_entry parent e d)); [|apply scan_settles].
    intros q Hq. apply (scan_directory_paths (Some entries)). exact Hq. }
  set (d1 := FileScanner.scan_directory (Some entries) parent d) in *.
  clearbody d1. cbn [FileScanner.scan_directory].
  induction entries as [|e entries IH]; [reflexivity|].
  apply Forall_cons in Hall as [He Hes]. cbn [foldl].
  rewrite (scan_settled_noop e parent' d1 He). apply IH. exact Hes.
Qed.

(** ** file_scanner.py: duplicate detection *)

Section DetectFacts.

Import DatabaseManager FileScanner.

Variable size_threshold : Z.
Variable calculate_hash : Path.t -> Z -> option string.

Local Abbreviation eligible := (FileScanner.eligible size_threshold).
Local Abbreviation loop := (find_duplicates_loop size_threshold calculate_hash).
Local Abbreviation row_of := (detect_row size_threshold calculate_hash).
Local Abbreviation dict_of := (detect_dict size_threshold calculate_hash).
Local Abbreviation rows_of := (detect_rows size_threshold calculate_hash).

Lemma detect_row_id hashes r : id (row_of hashes r) = id r.
Proof.
  unfold detect_row. destruct (eligible r); [|reflexivity].
  destruct (hashes !! _); reflexivity.
Qed.

Lemma detect_rows_ids (rest : list Row) :
  forall hashes, map id (rows_of hashes rest) = map id rest.
Proof.
  induction rest as [|r rest IH]; intros hashes; [reflexivity|].
  cbn [detect_rows map]. rewrite detect_row_id, IH. reflexivity.
Qed.

(** With unique ids, each iteration rewrites the one row it handles. *)
Lemma loop_row_by_row (rest : list Row) :
  forall (hashes : gmap (option string) Z) (done : t),
    NoDup (map id (done ++ rest)) ->
    (loop rest (hashes, done ++ rest)).2 = done ++ rows_of hashes rest.
Proof.
  induction rest as [|f rest IH]; intros hashes done Hnd; [reflexivity|].
  assert (Hids : forall f', id f' = id f ->
            map id (done ++ f' :: rest) = map id (done ++ f :: rest)).
  { intros f' E. rewrite !map_app. cbn [map]. rewrite E. reflexivity. }
  assert (Hnext : forall hashes1 f', id f' = id f ->
            (loop rest (hashes1, done ++ f' :: rest)).2
            = done ++ f' :: rows_of hashes1 rest).
  { intros hashes1 f' E.
    rewrite (cons_middle f' done rest), app_assoc. rewrite IH.
    - rewrite <- app_assoc. reflexivity.
    - rewrite <- app_assoc. cbn [app]. rewrite (Hids f' E). exact Hnd. }
  unfold find_duplicates_loop. cbn [foldl detect_rows].
  change (foldl (find_duplicates_step size_threshold calculate_hash) ?a rest)
    with (loop rest a).
  unfold find_duplicates_step, detect_row, detect_dict.
  destruct (eligible f) eqn:Ef; [|apply Hnext; reflexivity].
  unfold update_file_hash. rewrite update_where_id_middle by exact Hnd.
  remember (calculate_hash (path f) (size f)) as h eqn:Eh.
  destruct (hashes !! h) as [o|] eqn:Hl.
  - unfold update_file_content_owner.
    change (id f) with (id (set_hash h f)).
    rewrite update_where_id_middle
      by (rewrite (Hids (set_hash h f) eq_refl); exact Hnd).
    apply Hnext. reflexivity.
  - apply Hnext. reflexivity.
Qed.

Lemma find_duplicates_row_by_row (d : t) :
  NoDup (map id d) ->
  find_duplicates size_threshold calculate_hash d = rows_of ∅ d.
Proof.
  intros Hnd. unfold find_duplicates, get_all_files.
  apply (loop_row_by_row d ∅ [] Hnd).
Qed.

Lemma detect_row_twice hashes r :
  row_of hashes (row_of hashes r) = row_of hashes r /\
  dict_of hashes (row_of hashes r) = dict_of hashes r.
Proof.
  unfold detect_row, detect_dict. destruct (eligible r) eqn:Er.
  - destruct (hashes !! calculate_hash (path r) (size r)) as [o|] eqn:Hl.
    + change (eligible (set_content_owner (Some o)
                          (set_hash (calculate_hash (path r) (size r)) r)))
        with (eligible r).
      rewrite Er. cbn [path size set_content_owner set_hash]. rewrite Hl.
      split; reflexivity.
    + change (eligible (set_hash (calculate_hash (path r) (size r)) r))
        with (eligible r).
      rewrite Er. cbn [path size set_hash]. rewrite Hl. split; reflexivity.
  - rewrite Er. split; reflexivity.
Qed.

Lemma detect_rows_twice (rest : list Row) :
  forall hashes, rows_of hashes (rows_of hashes rest) = rows_of hashes rest.
Proof.
  induction rest as [|r rest IH]; intros hashes; [reflexivity|].
  cbn [detect_rows]. destruct (detect_row_twice hashes r) as [-> ->].
  rewrite IH. reflexivity.
Qed.

Lemma detect_rows_lookup (rest : list Row) :
  forall hashes (i : nat) (r : Row),
    rest !! i = Some r ->
    exists hashes', rows_of hashes rest !! i = Some (row_of hashes' r).
Proof.
  induction rest as [|x rest IH]; intros hashes i r Hi; [discriminate|].
  destruct i as [|i]; cbn [detect_rows].
  - injection Hi as ->. exists hashes. reflexivity.
  - apply (IH _ i r Hi).
Qed.

Lemma detect_rows_clear (rest : list Row) :
  forall hashes, map clear_detection (rows_of hashes rest) = map clear_detection rest.
Proof.
  induction rest as [|r rest IH]; intros hashes; [reflexivity|].
  cbn [detect_rows map]. rewrite IH. f_equal.
  unfold detect_row. destruct (eligible r); [|reflexivity].
  destruct (hashes !! _); reflexivity.
Qed.

End DetectFacts.

(** X10.  With unique ids, after find_duplicates every file row above the
    threshold carries in its hash column what calculate_hash answered for
    its path and size (None when the hash failed), at the same position of
    the catalog. *)
Theorem find_duplicates_stores_hash
    (size_threshold : Z) (calculate_hash : Path.t -> Z -> option string)
    (d : DatabaseManager.t) (i : nat) (r : Row) :
  NoDup (map id d) -> d !! i = Some r ->
  type r = file -> size r > size_threshold ->
  exists r',
    FileScanner.find_duplicates size_threshold calculate_hash d !! i = Some r' /\
    hash r' = calculate_hash (path r) (size r) /\ id r' = id r.
Proof.
  intros Hnd Hi Hty Hsz. rewrite find_duplicates_row_by_row by exact Hnd.
  destruct (detect_rows_lookup size_threshold calculate_hash d ∅ i r Hi)
    as [hashes' Hrow].
  exists (detect_row size_threshold calculate_hash hashes' r).
  split; [exact Hrow|]. split; [|apply detect_row_id].
  unfold detect_row, FileScanner.eligible.
  rewrite bool_decide_eq_true_2 by exact Hty.
  assert (Hgt : (size r >? size_threshold) = true) by (apply Z.gtb_lt; lia).
  rewrite Hgt. cbn [andb]. destruct (hashes' !! _); reflexivity.
Qed.

Lemma find_duplicates_stores_hash_witness :
  NoDup (map id Sample.small_catalog) /\
  exists r',
    FileScanner.find_duplicates 0
      (HashCalculator.calculate_hash Sample.toy_digest Sample.small_open)
      Sample.small_catalog !! 1%nat = Some r' /\
    hash r' = HashCalculator.calculate_hash Sample.toy_digest Sample.small_open
                (path Sample.small_row_b) (size Sample.small_row_b).
Proof.
  destruct small_catalog_unique as [_ Hnd]. split; [exact Hnd|].
  destruct (find_duplicates_stores_hash 0
              (HashCalculator.calculate_hash Sample.toy_digest Sample.small_open)
              Sample.small_catalog 1 Sample.small_row_b Hnd eq_refl eq_refl)
    as (r' & Hrow & Hh & _); [cbn; lia|].
  exists r'. split; [exact Hrow|exact Hh].
Defined.

(** X11.  find_duplicates writes the hash and content_owner_id columns only:
    with unique ids, the catalog it returns has the same rows in the same
    order once those two columns are blanked. *)
Theorem find_duplicates_changes_detection_columns_only
    (size_threshold : Z) (calculate_hash : Path.t -> Z -> option string)
    (d : DatabaseManager.t) :
  NoDup (map id d) ->
  map clear_detection (FileScanner.find_duplicates size_threshold calculate_hash d)
  = map clear_detection d.
Proof.
  intros Hnd. rewrite find_duplicates_row_by_row by exact Hnd.
  apply detect_rows_clear.
Qed.

Lemma find_duplicates_changes_detection_columns_only_witness :
  NoDup (map id Sample.small_catalog) /\
  map clear_detection
    (FileScanner.find_duplicates 0
       (HashCalculator.calculate_hash Sample.toy_digest Sample.small_open)
       Sample.small_catalog)
  = map clear_detection Sample.small_catalog.
Proof.
  destruct small_catalog_unique as [_ Hnd]. split; [exact Hnd|].
  apply (find_duplicates_changes_detection_columns_only 0 _ _ Hnd).
Defined.

(** X12.  Running find_duplicates a second time with the same threshold,
    while the files and so the hashes are as before, changes nothing: the
    hashes are recomputed and the same owners are written again. *)
Theorem find_duplicates_twice
    (size_threshold : Z) (calculate_hash : Path.t -> Z -> option string)
    (d : DatabaseManager.t) :
  NoDup (map id d) ->
  FileScanner.find_duplicates size_threshold calculate_hash
    (FileScanner.find_duplicates size_threshold calculate_hash d)
  = FileScanner.find_duplicates size_threshold calculate_hash d.
Proof.
  intros Hnd. rewrite (find_duplicates_row_by_row _ _ d Hnd).
  rewrite find_duplicates_row_by_row.
  - apply detect_rows_twice.
  - rewrite detect_rows_ids. exact Hnd.
Qed.

Lemma find_duplicates_twice_witness :
  NoDup (map id Sample.small_catalog) /\
  FileScanner.find_duplicates 0
    (HashCalculator.calculate_hash Sample.toy_digest Sample.small_open)
    (FileScanner.find_duplicates 0
       (HashCalculator.calculate_hash Sample.toy_digest Sample.small_open)
       Sample.small_catalog)
  = FileScanner.find_duplicates 0
      (HashCalculator.calculate_hash Sample.toy_digest Sample.small_open)
      Sample.small_catalog.
Proof.
  destruct small_catalog_unique as [_ Hnd]. split; [exact Hnd|].
  apply (find_duplicates_twice 0 _ _ Hnd).
Defined.

(** ** hash_calculator.py *)

Lemma window_insert_outside (bytes : list Byte.byte) (i : nat) (b : Byte.byte)
    (offset : Z) :
  0 <= offset ->
  Z.of_nat i < offset \/ offset + 102400 <= Z.of_nat i ->
  HashCalculator.window (<[i := b]> bytes) offset = HashCalculator.window bytes offset.
Proof.
  intros H0 Hout. unfold HashCalculator.window, HashCalculator.chunk_size.
  destruct Hout as [Hlt|Hge].
  - rewrite drop_insert_lt by lia. reflexivity.
  - rewrite drop_insert_ge by lia. rewrite take_insert_ge by lia. reflexivity.
Qed.

(** X14.  The sampled strategy does not see the bytes between its windows:
    for a size of at least 1 MiB, overwriting one byte at an offset that
    lies after the first 100 KiB, outside the middle window and before the
    last window leaves the hash as it was, so two files that differ there
    are taken for duplicates. *)
Theorem sampled_hash_ignores_bytes_between_windows
    (sha256_hexdigest : list Byte.byte -> string)
    (open1 open2 : Path.t -> option (list Byte.byte))
    (file_path : Path.t) (bytes : list Byte.byte) (i : nat) (b : Byte.byte)
    (file_size n : Z) :
  open1 file_path = Some bytes ->
  open2 file_path = Some (<[i := b]> bytes) ->
  HashCalculator.getsize bytes = n ->
  1024 * 1024 <= file_size ->
  102400 <= Z.of_nat i ->
  Z.of_nat i < Z.max 0 (n / 2 - 51200) \/ Z.max 0 (n / 2 - 51200) + 102400 <= Z.of_nat i ->
  Z.of_nat i < Z.max 0 (n - 102400) ->
  HashCalculator.calculate_hash sha256_hexdigest open2 file_path file_size =
  HashCalculator.calculate_hash sha256_hexdigest open1 file_path file_size.
Proof.
  intros Hopen1 Hopen2 Hn Hsize Hfirst Hmid Hlast.
  unfold HashCalculator.calculate_hash.
  destruct (Z.ltb_spec file_size (1024 * 1024)) as [Hlt|_]; [lia|].
  rewrite (partial_hash_windows sha256_hexdigest open1 file_path bytes Hopen1).
  rewrite (partial_hash_windows sha256_hexdigest open2 file_path _ Hopen2).
  assert (Hn' : HashCalculator.getsize (<[i := b]> bytes) = n).
  { unfold HashCalculator.getsize in *. rewrite length_insert. exact Hn. }
  rewrite Hn', Hn.
  assert (Hchunk : HashCalculator.chunk_size = 102400) by reflexivity.
  rewrite Hchunk. change (102400 / 2) with 51200.
  rewrite !window_insert_outside; [reflexivity| | | | | |]; lia.
Qed.

Lemma sampled_hash_ignores_bytes_between_windows_witness :
  let bytes := Sample.zeros 1048576 in
  let i := Z.to_nat 200000 in
  let open1 := fun _ : Path.t => Some bytes in
  let open2 := fun _ : Path.t => Some (<[i := Byte.x01]> bytes) in
  HashCalculator.getsize bytes = 1048576 /\
  HashCalculator.calculate_hash Sample.toy_digest open2 [] 1048576 =
  HashCalculator.calculate_hash Sample.toy_digest open1 [] 1048576.
Proof.
  intros bytes i open1 open2.
  assert (Hn : HashCalculator.getsize bytes = 1048576).
  { unfold HashCalculator.getsize, bytes, Sample.zeros. rewrite length_replicate. lia. }
  split; [exact Hn|].
  apply (sampled_hash_ignores_bytes_between_windows Sample.toy_digest open1 open2 []
           bytes i Byte.x01 1048576 1048576 eq_refl eq_refl Hn);
    unfold i; change (1048576 / 2) with 524288; lia.
Defined.

(** X15.  The clamped offsets on a short file: when the size passed in is
    at least 1 MiB but the file now holds at most 100 KiB (it shrank after
    the scan), all three windows start at offset 0 and the digest is that
    of the content three times over. *)
Theorem sampled_hash_of_short_file
    (sha256_hexdigest : list Byte.byte -> string)
    (open_rb : Path.t -> option (list Byte.byte))
    (file_path : Path.t) (bytes : list Byte.byte) (file_size : Z) :
  open_rb file_path = Some bytes ->
  1024 * 1024 <= file_size ->
  HashCalculator.getsize bytes <= 102400 ->
  HashCalculator.calculate_hash sha256_hexdigest open_rb file_path file_size =
  Some (sha256_hexdigest (bytes ++ bytes ++ bytes)).
Proof.
  intros Hopen Hsize Hshort. unfold HashCalculator.calculate_hash.
  destruct (Z.ltb_spec file_size (1024 * 1024)) as [Hlt|_]; [lia|].
  rewrite (partial_hash_windows sha256_hexdigest open_rb file_path bytes Hopen).
  assert (Hchunk : HashCalculator.chunk_size = 102400) by reflexivity.
  rewrite Hchunk. change (102400 / 2) with 51200.
  assert (H0 : 0 <= HashCalculator.getsize bytes)
    by (unfold HashCalculator.getsize; lia).
  assert (Hhalf : HashCalculator.getsize bytes / 2 <= 51200)
    by (apply Z.div_le_upper_bound; lia).
  rewrite !Z.max_l by lia.
  assert (Hw : HashCalculator.window bytes 0 = bytes).
  { unfold HashCalculator.window. rewrite Hchunk. cbn [Z.to_nat drop].
    apply take_ge. unfold HashCalculator.getsize in Hshort. lia. }
  rewrite Hw. reflexivity.
Qed.

Lemma sampled_hash_of_short_file_witness :
  Sample.small_open ["mnt"; "x"; "a"]%string = Some [Byte.x01; Byte.x02; Byte.x03] /\
  HashCalculator.calculate_hash Sample.toy_digest Sample.small_open
    ["mnt"; "x"; "a"]%string 1048576 = Some "27"%string.
Proof.
  split; [reflexivity|].
  rewrite (sampled_hash_of_short_file Sample.toy_digest Sample.small_open
             ["mnt"; "x"; "a"]%string [Byte.x01; Byte.x02; Byte.x03] 1048576 eq_refl).
  - reflexivity.
  - lia.
  - unfold HashCalculator.getsize. simpl length. lia.
Defined.

(** ** backup_manager.py *)

Lemma common_app (start rel : Path.t) :
  Path.common start (start ++ rel) = length start.
Proof.
  induction start as [|x start IH]; [destruct rel; reflexivity|].
  cbn [app Path.common length]. rewrite String.eqb_refl, IH. reflexivity.
Qed.

Lemma relpath_under (start rel : Path.t) :
  rel <> [] -> Path.relpath (start ++ rel) start = rel.
Proof.
  intros Hrel. unfold Path.relpath. rewrite common_app, Nat.sub_diag.
  cbn [replicate app]. rewrite drop_app_length.
  destruct rel; [contradiction|reflexivity].
Qed.

(** X16.  The destination of an entry below the mounted path is the
    backup destination followed by the entry's path relative to the mount:
    the source tree is re-rooted, component by component. *)
Theorem dest_path_rerooted (host : Host) (config : Config)
    (d mount rel : Path.t) (f : Row) :
  MOUNTED_PATH config = Some mount ->
  path f = mount ++ rel ->
  rel <> [] ->
  BackupManager.dest_path_of host config d f = d ++ rel.
Proof.
  intros Hmount Hpath Hrel.
  unfold BackupManager.dest_path_of, BackupManager.relpath_mounted, Path.join.
  rewrite Hmount, Hpath. cbn [default]. rewrite relpath_under by exact Hrel.
  reflexivity.
Qed.

Lemma dest_path_rerooted_witness :
  BackupManager.dest_path_of Sample.host_ok Sample.config_bak ["bak"]%string
    Sample.small_row_a = ["bak"; "x"; "a"]%string.
Proof.
  apply (dest_path_rerooted Sample.host_ok Sample.config_bak ["bak"]%string
           ["mnt"]%string ["x"; "a"]%string Sample.small_row_a).
  - reflexivity.
  - reflexivity.
  - discriminate.
Defined.

(** X17.  Without a configured destination a pass over a non-empty
    selection raises at its first entry, before any status is written and
    before any call into the operating system: the catalog and the file
    system are as they were. *)
Theorem backup_files_without_destination (host : Host) (config : Config)
    (files : list Row) (w : World) :
  BACKUP_DESTINATION config = None ->
  files <> [] ->
  BackupManager.backup_files host config files w = (Raise OtherError, w).
Proof.
  intros Hdest Hfiles. unfold BackupManager.backup_files. rewrite Hdest.
  destruct files as [|f files]; [contradiction|]. reflexivity.
Qed.

Lemma backup_files_without_destination_witness :
  BackupManager.backup_files Sample.host_ok Sample.config_no_destination
    [Sample.small_row_a] (mkWorld Sample.small_catalog []) =
  (Raise OtherError, mkWorld Sample.small_catalog []).
Proof.
  apply (backup_files_without_destination Sample.host_ok Sample.config_no_destination
           [Sample.small_row_a] (mkWorld Sample.small_catalog [])).
  - reflexivity.
  - discriminate.
Defined.

(** X18.  Backing up a folder entry makes one call into the operating
    system, os.makedirs on the entry's destination path, and nothing of
    what the folder holds is copied with it; the entry ends as success
    when the call succeeds and as failed when it raises. *)
Theorem backup_file_folder (host : Host) (config : Config)
    (f : Row) (d : Path.t) (w : World) :
  type f = folder ->
  let dest_path := BackupManager.dest_path_of host config d f in
  let outcome := os_outcome host (trace w) (Makedirs dest_path) in
  BackupManager.backup_file host config f (Some d) w =
  (Ok tt,
   mkWorld (DatabaseManager.update_file_status (id f)
              (match outcome with Done => success | Fails _ => failed end) (db w))
           (trace w ++ [(Makedirs dest_path, outcome)])).
Proof.
  intros Htype dest_path outcome.
  unfold BackupManager.backup_file, BackupManager.join_destination, bind, ret,
    try_except, on_db, BackupManager.materialize.
  rewrite Htype. unfold BackupManager.copy_folder, BackupManager.os_call.
  cbn [db trace]. fold (BackupManager.dest_path_of host config d f).
  fold dest_path. fold outcome.
  destruct outcome; cbn [db trace]; rewrite update_status_twice; reflexivity.
Qed.

Lemma backup_file_folder_witness :
  BackupManager.backup_file Sample.host_ok Sample.config_bak Sample.docs_row
    (Some ["bak"]%string) (mkWorld [Sample.docs_row] []) =
  (Ok tt,
   mkWorld [set_status success Sample.docs_row]
           [(Makedirs ["bak"; "docs"]%string, Done)]).
Proof.
  apply (backup_file_folder Sample.host_ok Sample.config_bak Sample.docs_row
           ["bak"]%string (mkWorld [Sample.docs_row] [])).
  reflexivity.
Defined.

(** X19.  Backing up a file that is not marked as a duplicate: the parent
    directory of the destination path is created and the file is copied
    there with shutil.copy2.  When creating the directory raises, nothing
    is copied; the entry ends as success only when both calls succeed. *)
Theorem backup_file_plain_file (host : Host) (config : Config)
    (f : Row) (d : Path.t) (w : World) :
  type f = file ->
  BackupManager.has_content_owner f = false ->
  recursion_limit host <> 0%nat ->
  let dest_path := BackupManager.dest_path_of host config d f in
  let mk := Makedirs (Path.dirname dest_path) in
  let cp := Copy2 (path f) dest_path in
  let o1 := os_outcome host (trace w) mk in
  let o2 := os_outcome host (trace w ++ [(mk, Done)]) cp in
  BackupManager.backup_file host config f (Some d) w =
  (Ok tt,
   match o1 with
   | Fails _ =>
       mkWorld (DatabaseManager.update_file_status (id f) failed (db w))
               (trace w ++ [(mk, o1)])
   | Done =>
       mkWorld (DatabaseManager.update_file_status (id f)
                  (match o2 with Done => success | Fails _ => failed end) (db w))
               ((trace w ++ [(mk, Done)]) ++ [(cp, o2)])
   end).
Proof.
  intros Htype Hown Hdepth dest_path mk cp o1 o2.
  unfold BackupManager.backup_file, BackupManager.join_destination, bind, ret,
    try_except, on_db, BackupManager.materialize.
  rewrite Htype. destruct (recursion_limit host) as [|depth]; [contradiction|].
  cbn [BackupManager.copy_file]. rewrite Hown.
  unfold bind, BackupManager.os_call. cbn [db trace].
  fold (BackupManager.dest_path_of host config d f). fold dest_path. fold mk.
  fold o1. destruct o1; cbn [db trace].
  - fold cp. fold o2. destruct o2; cbn [db trace];
      rewrite update_status_twice; reflexivity.
  - rewrite update_status_twice. reflexivity.
Qed.

Lemma backup_file_plain_file_witness :
  BackupManager.backup_file Sample.host_copy_a_fails Sample.config_bak
    Sample.small_row_a (Some ["bak"]%string) (mkWorld [Sample.small_row_a] []) =
  (Ok tt,
   mkWorld [set_status failed Sample.small_row_a]
           [(Makedirs ["bak"; "x"]%string, Done);
            (Copy2 ["mnt"; "x"; "a"]%string ["bak"; "x"; "a"]%string, Fails OSError)]).
Proof.
  apply (backup_file_plain_file Sample.host_copy_a_fails Sample.config_bak
           Sample.small_row_a ["bak"]%string (mkWorld [Sample.small_row_a] [])).
  - reflexivity.
  - reflexivity.
  - discriminate.
Defined.

Section TraceFacts.

Import DatabaseManager BackupManager.

Variable host : Host.
Variable config : Config.

Lemma trace_extends_same (P : OsCall -> Prop) (w w' : World) :
  trace w' = trace w -> trace_extends P w w'.
Proof.
  intros H. exists []. split; [rewrite H; symmetry; apply app_nil_r|].
  intros ev Hev. inversion Hev.
Qed.

Lemma trace_extends_trans (P : OsCall -> Prop) (w1 w2 w3 : World) :
  trace_extends P w1 w2 -> trace_extends P w2 w3 -> trace_extends P w1 w3.
Proof.
  intros (n1 & E1 & H1) (n2 & E2 & H2). exists (n1 ++ n2). split.
  - rewrite E2, E1. symmetry. apply app_assoc.
  - intros ev Hev. apply elem_of_app in Hev as [Hev|Hev]; [apply H1|apply H2]; exact Hev.
Qed.

Lemma trace_extends_weaken (P Q : OsCall -> Prop) (w w' : World) :
  (forall c, P c -> Q c) -> trace_extends P w w' -> trace_extends Q w w'.
Proof.
  intros HPQ (n & E & H). exists n. split; [exact E|].
  intros ev Hev. apply HPQ, H, Hev.
Qed.

Lemma os_call_extends (P : OsCall -> Prop) (c : OsCall) (w : World) :
  P c -> trace_extends P w (os_call host c w).2.
Proof.
  intros Hc. exists [(c, os_outcome host (trace w) c)]. split.
  - unfold os_call. destruct (os_outcome host (trace w) c); reflexivity.
  - intros ev Hev. apply list_elem_of_singleton in Hev as ->. exact Hc.
Qed.

Lemma bind_extends {A B} (P : OsCall -> Prop) (m : M A) (k : A -> M B) (w : World) :
  trace_extends P w (m w).2 ->
  (forall a w1, trace_extends P w1 (k a w1).2) ->
  trace_extends P w (bind m k w).2.
Proof.
  intros Hm Hk. unfold bind. destruct (m w) as [[a|e] w1]; cbn [snd] in *.
  - apply (trace_extends_trans P w w1); [exact Hm|apply Hk].
  - exact Hm.
Qed.

Lemma try_except_extends {A} (P : OsCall -> Prop) (m : M A) (handler : Exn -> M A)
    (w : World) :
  trace_extends P w (m w).2 ->
  (forall e w1, trace_extends P w1 (handler e w1).2) ->
  trace_extends P w (try_except m handler w).2.
Proof.
  intros Hm Hh. unfold try_except. destruct (m w) as [[a|e] w1]; cbn [snd] in *.
  - exact Hm.
  - apply (trace_extends_trans P w w1); [exact Hm|apply Hh].
Qed.

Lemma on_db_extends (P : OsCall -> Prop) (g : t -> t) (w : World) :
  trace_extends P w (on_db g w).2.
Proof. apply trace_extends_same. reflexivity. Qed.

(** Through the mutual calls of copy_file and create_symlink the path
    written to stays the one the first call was given. *)
Lemma copy_file_create_symlink_extends (depth : nat) :
  (forall f file_path dest_path backup_destination w,
      trace_extends (writes_at dest_path) w
        (copy_file host config depth f file_path dest_path backup_destination w).2) /\
  (forall f target_path link_path w,
      trace_extends (writes_at link_path) w
        (create_symlink host config depth f target_path link_path w).2).
Proof.
  induction depth as [|depth [IHcopy IHlink]].
  - split; intros; apply trace_extends_same; reflexivity.
  - split.
    + intros f file_path dest_path backup_destination w. cbn [copy_file].
      apply bind_extends; [apply os_call_extends; right; reflexivity|].
      intros _ w1. destruct (has_content_owner f);
        [|apply os_call_extends; reflexivity].
      destruct (get_file_by_path file_path (db w1));
        [|apply os_call_extends; reflexivity].
      apply bind_extends.
      * unfold join_destination. destruct backup_destination;
          apply trace_extends_same; reflexivity.
      * intros original_dest_path w2. apply IHlink.
    + intros f target_path link_path w. cbn [create_symlink].
      apply try_except_extends.
      * apply bind_extends; [apply os_call_extends; right; reflexivity|].
        intros _ w1. apply os_call_extends. reflexivity.
      * intros [|] w1; [apply IHcopy|apply trace_extends_same; reflexivity].
Qed.

Lemma materialize_extends (f : Row) (file_path dest_path : Path.t)
    (backup_destination : option Path.t) (w : World) :
  trace_extends (writes_at dest_path) w
    (materialize host config f file_path dest_path backup_destination w).2.
Proof.
  unfold materialize. destruct (type f).
  - apply copy_file_create_symlink_extends.
  - unfold copy_folder. apply os_call_extends. left. reflexivity.
  - apply copy_file_create_symlink_extends.
Qed.

Lemma backup_file_extends (f : Row) (d : Path.t) (w : World) :
  trace_extends (writes_at (dest_path_of host config d f)) w
    (backup_file host config f (Some d) w).2.
Proof.
  assert (E : backup_file host config f (Some d) w =
              bind (on_db (update_file_status (id f) copying))
                (fun _ => try_except
                   (bind (materialize host config f (path f)
                            (dest_path_of host config d f) (Some d))
                      (fun _ => on_db (update_file_status (id f) success)))
                   (fun _ => on_db (update_file_status (id f) failed))) w)
    by reflexivity.
  rewrite E. apply bind_extends; [apply on_db_extends|]. intros _ w2.
  apply try_except_extends.
  - apply bind_extends; [apply materialize_extends|].
    intros _ w3. apply on_db_extends.
  - intros _ w3. apply on_db_extends.
Qed.

Lemma backup_files_loop_extends (d : Path.t) (files : list Row) (w : World) :
  trace_extends
    (fun c => exists f, f ∈ files /\ writes_at (dest_path_of host config d f) c) w
    (backup_files_loop host config files (Some d) w).2.
Proof.
  revert w. induction files as [|f files IH]; intros w.
  - apply trace_extends_same. reflexivity.
  - cbn [backup_files_loop]. apply bind_extends.
    + apply (trace_extends_weaken (writes_at (dest_path_of host config d f)));
        [|apply backup_file_extends].
      intros c Hc. exists f. split; [left|exact Hc].
    + intros _ w1.
      apply (trace_extends_weaken
               (fun c => exists f0, f0 ∈ files /\
                  writes_at (dest_path_of host config d f0) c)); [|apply IH].
      intros c (f0 & Hf0 & Hc). exists f0. split; [right; exact Hf0|exact Hc].
Qed.

End TraceFacts.

(** X20.  A backup pass only adds to the record of calls, and every call
    it makes writes at the destination path of one of the selected
    entries: it creates that path or its parent directory, or puts a link
    or a copy at that path.  Nothing is written in the source tree or at
    any other place, also on the fallback paths. *)
Theorem backup_files_writes_at_destinations (host : Host) (config : Config)
    (d : Path.t) (files : list Row) (w : World) :
  BACKUP_DESTINATION config = Some d ->
  exists new : list Event,
    trace (BackupManager.backup_files host config files w).2 = trace w ++ new /\
    forall (c : OsCall) (o : Outcome),
      (c, o) ∈ new ->
      exists f, f ∈ files /\
        writes_at (BackupManager.dest_path_of host config d f) c.
Proof.
  intros Hdest. unfold BackupManager.backup_files. rewrite Hdest.
  destruct (backup_files_loop_extends host config d files w) as (new & E & H).
  exists new. split; [exact E|]. intros c o Hin. exact (H (c, o) Hin).
Qed.

Lemma backup_files_writes_at_destinations_witness :
  exists new : list Event,
    trace (BackupManager.backup_files Sample.host_no_symlinks Sample.config_bak
             Sample.small_detected (mkWorld Sample.small_detected [])).2 = [] ++ new /\
    forall (c : OsCall) (o : Outcome),
      (c, o) ∈ new ->
      exists f, f ∈ Sample.small_detected /\
        writes_at (BackupManager.dest_path_of Sample.host_no_symlinks
                     Sample.config_bak ["bak"]%string f) c.
Proof.
  apply (backup_files_writes_at_destinations Sample.host_no_symlinks Sample.config_bak
           ["bak"]%string Sample.small_detected (mkWorld Sample.small_detected [])).
  reflexivity.
Defined.

(** ** check_previous_backup *)

Lemma check_previous_backup_true (d : DatabaseManager.t) :
  DatabaseManager.check_previous_backup d = true <->
  exists r, r ∈ d /\ status r ∈ [pending; failed; copying].
Proof.
  unfold DatabaseManager.check_previous_backup.
  rewrite Z.gtb_lt. split.
  - destruct (filter (fun r => status r ∈ [pending; failed; copying]) d)
      as [|r l] eqn:E; [cbn; lia|].
    intros _. assert (Hr : r ∈ filter (fun r => status r ∈ [pending; failed; copying]) d)
      by (rewrite E; left).
    apply list_elem_of_filter in Hr as [Hst Hr]. exists r. split; assumption.
  - intros (r & Hr & Hst).
    assert (Hin : r ∈ filter (fun r => status r ∈ [pending; failed; copying]) d)
      by (apply list_elem_of_filter; split; assumption).
    destruct (filter (fun r => status r ∈ [pending; failed; copying]) d);
      [inversion Hin|cbn [length]; lia].
Qed.

(** X21.  After a backup pass over a selection that covers the whole
    catalog, check_previous_backup answers true exactly when some entry
    ended as failed: a pass in which everything was copied leaves nothing
    that counts as a backup in progress. *)
Theorem check_previous_backup_after_pass (host : Host) (config : Config)
    (d : Path.t) (files : list Row) (w : World) :
  BACKUP_DESTINATION config = Some d ->
  (forall r, r ∈ db w -> id r ∈ map id files) ->
  let w' := (BackupManager.backup_files host config files w).2 in
  DatabaseManager.check_previous_backup (db w') = true <->
  exists r, r ∈ db w' /\ status r = failed.
Proof.
  intros Hdest Hall w'. unfold w', BackupManager.backup_files. rewrite Hdest.
  destruct (backup_files_loop_spec host config d files w)
    as (sigma & w1 & Hfinal & Hrun & Hdb).
  rewrite Hrun. cbn [snd]. rewrite check_previous_backup_true. split.
  - intros (r & Hr & Hst). exists r. split; [exact Hr|].
    rewrite Hdb in Hr.
    apply restatus_elem in Hr as (r0 & Hr0 & _ & [[_ ->]|[Hout _]]).
    + cbn [status set_status] in *. destruct (Hfinal (id r0)) as [E|E]; [|exact E].
      rewrite E in Hst.
      repeat (apply elem_of_cons in Hst as [Hst|Hst]; [discriminate|]).
      inversion Hst.
    + exfalso. apply Hout, Hall, Hr0.
  - intros (r & Hr & Hst). exists r. split; [exact Hr|]. rewrite Hst. right. left.
Qed.

Lemma check_previous_backup_after_pass_witness :
  let w' := (BackupManager.backup_files Sample.host_ok Sample.config_bak
               Sample.small_catalog (mkWorld Sample.small_catalog [])).2 in
  DatabaseManager.check_previous_backup (db w') = true <->
  exists r, r ∈ db w' /\ status r = failed.
Proof.
  apply (check_previous_backup_after_pass Sample.host_ok Sample.config_bak
           ["bak"]%string Sample.small_catalog (mkWorld Sample.small_catalog [])).
  - reflexivity.
  - intros r Hr. apply list_elem_of_fmap. exists r. split; [reflexivity|exact Hr].
Defined.

(** X22.  A scan that adds anything to the catalog makes
    check_previous_backup answer true: the rows of a scan are pending, and
    pending rows count as a backup in progress although none was started. *)
Theorem scan_directory_sets_previous_backup
    (listing : option (list FileScanner.DirEntry)) (parent : option Z)
    (d : DatabaseManager.t) :
  FileScanner.scan_directory listing parent d <> d ->
  DatabaseManager.check_previous_backup
    (FileScanner.scan_directory listing parent d) = true.
Proof.
  intros Hnew.
  assert (Hext : scan_extends d (FileScanner.scan_directory listing parent d)).
  { apply (scan_directory_preserves (scan_extends d)).
    - intros entry file_type parent' isl d'. apply add_entry_extends.
    - apply scan_extends_refl. }
  destruct Hext as (added & E & Hadded). rewrite E in *.
  destruct added as [|r added].
  - exfalso. apply Hnew. apply app_nil_r.
  - apply check_previous_backup_true. exists r. split.
    + apply elem_of_app. right. left.
    + destruct (Hadded r) as (-> & _); left.
Qed.

Lemma scan_directory_sets_previous_backup_witness :
  FileScanner.scan_directory (Some Sample.docs_listing) None [] <> [] /\
  DatabaseManager.check_previous_backup
    (FileScanner.scan_directory (Some Sample.docs_listing) None []) = true.
Proof.
  assert (H : FileScanner.scan_directory (Some Sample.docs_listing) None [] <> [])
    by (vm_compute; discriminate).
  split; [exact H|].
  apply (scan_directory_sets_previous_backup (Some Sample.docs_listing) None [] H).
Defined.

(** ** Duplicates on their fallback paths *)

Lemma get_file_by_path_update_status (p : Path.t) (k : Z) (s : Status)
    (d : DatabaseManager.t) :
  DatabaseManager.get_file_by_path p (DatabaseManager.update_file_status k s d) =
  (fun r => if id r =? k then set_status s r else r) <$>
    DatabaseManager.get_file_by_path p d.
Proof.
  unfold DatabaseManager.update_file_status, DatabaseManager.update_where_id.
  induction d as [|x d IH]; [reflexivity|].
  cbn [map DatabaseManager.get_file_by_path].
  replace (path (if id x =? k then set_status s x else x)) with (path x)
    by (destruct (id x =? k); reflexivity).
  destruct (DatabaseManager.path_eqb (path x) p); [reflexivity|exact IH].
Qed.

Section StepFacts.

Import DatabaseManager BackupManager.

Variable host : Host.
Variable config : Config.

Lemma os_call_done (c : OsCall) (w : World) :
  os_outcome host (trace w) c = Done ->
  os_call host c w = (Ok tt, mkWorld (db w) (trace w ++ [(c, Done)])).
Proof. intros H. unfold os_call. rewrite H. reflexivity. Qed.

Lemma os_call_fails (c : OsCall) (e : Exn) (w : World) :
  os_outcome host (trace w) c = Fails e ->
  os_call host c w = (Raise e, mkWorld (db w) (trace w ++ [(c, Fails e)])).
Proof. intros H. unfold os_call. rewrite H. reflexivity. Qed.

Lemma bind_ok {A B} (m : M A) (k : A -> M B) (w w1 : World) (a : A) :
  m w = (Ok a, w1) -> bind m k w = k a w1.
Proof. intros H. unfold bind. rewrite H. reflexivity. Qed.

Lemma bind_raise {A B} (m : M A) (k : A -> M B) (w w1 : World) (e : Exn) :
  m w = (Raise e, w1) -> bind m k w = (Raise e, w1).
Proof. intros H. unfold bind. rewrite H. reflexivity. Qed.

Lemma try_except_raise {A} (m : M A) (handler : Exn -> M A) (w w1 : World) (e : Exn) :
  m w = (Raise e, w1) -> try_except m handler w = handler e w1.
Proof. intros H. unfold try_except. rewrite H. reflexivity. Qed.

Lemma copy_file_S (depth : nat) (f : Row) (file_path dest_path : Path.t)
    (backup_destination : option Path.t) :
  copy_file host config (S depth) f file_path dest_path backup_destination =
  bind (os_call host (Makedirs (Path.dirname dest_path)))
    (fun _ =>
       if has_content_owner f then
         fun w =>
           match get_file_by_path file_path (db w) with
           | Some original_file =>
               bind (join_destination backup_destination
                       (relpath_mounted host config (path original_file)))
                 (fun original_dest_path =>
                    create_symlink host config depth f original_dest_path dest_path) w
           | None => os_call host (Copy2 file_path dest_path) w
           end
       else os_call host (Copy2 file_path dest_path)).
Proof. reflexivity. Qed.

Lemma create_symlink_S (depth : nat) (f : Row) (target_path link_path : Path.t) :
  create_symlink host config (S depth) f target_path link_path =
  try_except
    (bind (os_call host (Makedirs (Path.dirname link_path)))
       (fun _ => os_call host (Symlink target_path link_path)))
    (fun e =>
       match e with
       | OSError =>
           copy_file host config depth f target_path link_path
             (BACKUP_DESTINATION config)
       | OtherError => raise OtherError
       end).
Proof. reflexivity. Qed.

(** The duplicate branch of copy_file when the link cannot be created:
    two rounds of the mutual calls, ending in a copy of the destination
    path onto itself. *)
Lemma copy_file_duplicate_fallback (d : Path.t) (f r1 : Row) (w1 : World) (n : nat) :
  has_content_owner f = true ->
  get_file_by_path (path f) (db w1) = Some r1 ->
  get_file_by_path (dest_path_of host config d f) (db w1) = None ->
  (forall t p, os_outcome host t (Makedirs p) = Done) ->
  (forall t a b, os_outcome host t (Symlink a b) = Fails OSError) ->
  let dp := dest_path_of host config d f in
  let mk := Makedirs (Path.dirname dp) in
  copy_file host config (S (S (S n))) f (path f) dp (Some d) w1 =
  os_call host (Copy2 dp dp)
    (mkWorld (db w1)
       (trace w1 ++ [(mk, Done); (mk, Done); (Symlink dp dp, Fails OSError); (mk, Done)])).
Proof.
  intros Hown Hrow Hdest Hmk Hlink dp mk.
  pose proof (get_file_by_path_path _ _ _ Hrow) as Hpath.
  assert (Hodp : Path.join d (relpath_mounted host config (path r1)) = dp)
    by (rewrite Hpath; reflexivity).
  cbn [copy_file]. fold mk.
  rewrite (bind_ok _ _ w1 _ tt (os_call_done mk w1 (Hmk _ _))).
  rewrite Hown. cbn [db]. rewrite Hrow.
  unfold join_destination at 1.
  rewrite (bind_ok _ _ _ _ dp (f_equal (fun p => (Ok p, _)) Hodp)).
  cbn [create_symlink]. fold mk.
  set (w2 := mkWorld (db w1) (trace w1 ++ [(mk, Done)])).
  set (w3 := mkWorld (db w1) ((trace w1 ++ [(mk, Done)]) ++ [(mk, Done)])).
  set (w4 := mkWorld (db w1)
               (((trace w1 ++ [(mk, Done)]) ++ [(mk, Done)]) ++
                [(Symlink dp dp, Fails OSError)])).
  assert (Htry : bind (os_call host mk) (fun _ => os_call host (Symlink dp dp)) w2 =
                 (Raise OSError, w4)).
  { rewrite (bind_ok _ _ w2 w3 tt (os_call_done mk w2 (Hmk _ _))).
    apply (os_call_fails (Symlink dp dp) OSError w3 (Hlink _ _ _)). }
  rewrite (try_except_raise _ _ w2 w4 OSError Htry).
  cbn [copy_file]. fold mk.
  rewrite (bind_ok _ _ w4 _ tt (os_call_done mk w4 (Hmk _ _))).
  unfold w4. cbn [db trace]. fold dp in Hdest. rewrite Hdest.
  rewrite <- !app_assoc. reflexivity.
Qed.

End StepFacts.

(** X23.  A file marked as a duplicate, on a destination that cannot hold
    symbolic links (os.symlink raises OSError): the fallback copy reads
    from the destination path of the duplicate itself and writes to that
    same path.  The content of the source file is never copied, and the
    status of the entry is the outcome of that copy of a path onto itself. *)
Theorem backup_duplicate_fallback_copies_destination
    (host : Host) (config : Config) (d : Path.t) (f r0 : Row) (w : World) :
  type f = file ->
  BackupManager.has_content_owner f = true ->
  DatabaseManager.get_file_by_path (path f) (db w) = Some r0 ->
  let dp := BackupManager.dest_path_of host config d f in
  DatabaseManager.get_file_by_path dp (db w) = None ->
  (forall t p, os_outcome host t (Makedirs p) = Done) ->
  (forall t a b, os_outcome host t (Symlink a b) = Fails OSError) ->
  (3 <= recursion_limit host)%nat ->
  let mk := Makedirs (Path.dirname dp) in
  let t4 := trace w ++ [(mk, Done); (mk, Done);
                        (Symlink dp dp, Fails OSError); (mk, Done)] in
  let o := os_outcome host t4 (Copy2 dp dp) in
  BackupManager.backup_file host config f (Some d) w =
  (Ok tt,
   mkWorld (DatabaseManager.update_file_status (id f)
              (match o with Done => success | Fails _ => failed end) (db w))
           (t4 ++ [(Copy2 dp dp, o)])).
Proof.
  intros Hty Hown Hrow dp Hdest Hmk Hlink Hlim mk t4 o.
  destruct (recursion_limit host) as [|[|[|n]]] eqn:Elim; [lia|lia|lia|].
  set (w1 := mkWorld (DatabaseManager.update_file_status (id f) copying (db w)) (trace w)).
  assert (Hrow1 : exists r1, DatabaseManager.get_file_by_path (path f) (db w1) = Some r1).
  { unfold w1. cbn [db]. rewrite get_file_by_path_update_status, Hrow. eexists. reflexivity. }
  destruct Hrow1 as [r1 Hrow1].
  assert (Hdest1 : DatabaseManager.get_file_by_path dp (db w1) = None).
  { unfold w1. cbn [db]. rewrite get_file_by_path_update_status, Hdest. reflexivity. }
  pose proof (copy_file_duplicate_fallback host config d f r1 w1 n Hown Hrow1 Hdest1
                Hmk Hlink) as Hcopy.
  cbv zeta in Hcopy. fold dp in Hcopy. fold mk in Hcopy.
  assert (E : BackupManager.backup_file host config f (Some d) w =
              try_except
                (bind (BackupManager.copy_file host config (recursion_limit host) f
                         (path f) dp (Some d))
                   (fun _ => on_db (DatabaseManager.update_file_status (id f) success)))
                (fun _ => on_db (DatabaseManager.update_file_status (id f) failed)) w1).
  { unfold BackupManager.backup_file, BackupManager.materialize. rewrite Hty.
    reflexivity. }
  rewrite E, Elim. unfold try_except.
  set (w5 := mkWorld (db w1)
               (trace w1 ++ [(mk, Done); (mk, Done);
                             (Symlink dp dp, Fails OSError); (mk, Done)])) in Hcopy.
  assert (Ho : os_outcome host (trace w5) (Copy2 dp dp) = o) by reflexivity.
  destruct o as [|e].
  - rewrite (bind_ok _ _ w1 _ tt (eq_trans Hcopy (os_call_done host _ w5 Ho))).
    unfold on_db. cbn [db trace w5 w1]. rewrite update_status_twice. reflexivity.
  - rewrite (bind_raise _ _ w1 _ e (eq_trans Hcopy (os_call_fails host _ e w5 Ho))).
    unfold on_db. cbn [db trace w5 w1]. rewrite update_status_twice. reflexivity.
Qed.

Lemma backup_duplicate_fallback_copies_destination_witness :
  BackupManager.backup_file Sample.host_no_symlinks Sample.config_bak
    Sample.duplicate_row_b (Some ["bak"]%string) (mkWorld Sample.small_detected []) =
  (Ok tt,
   mkWorld (DatabaseManager.update_file_status 2 success Sample.small_detected)
     [(Makedirs ["bak"; "y"], Done);
      (Makedirs ["bak"; "y"], Done);
      (Symlink ["bak"; "y"; "b"] ["bak"; "y"; "b"], Fails OSError);
      (Makedirs ["bak"; "y"], Done);
      (Copy2 ["bak"; "y"; "b"] ["bak"; "y"; "b"], Done)]%string).
Proof.
  apply (backup_duplicate_fallback_copies_destination Sample.host_no_symlinks
           Sample.config_bak ["bak"]%string Sample.duplicate_row_b
           Sample.duplicate_row_b (mkWorld Sample.small_detected [])).
  - reflexivity.
  - reflexivity.
  - vm_compute. reflexivity.
  - vm_compute. reflexivity.
  - intros t p. reflexivity.
  - intros t a b. reflexivity.
  - cbn. lia.
Defined.

Section SelfBackup.

Import DatabaseManager BackupManager.

Variable host : Host.
Variable config : Config.
Variable m rel : Path.t.
Variable f : Row.

Hypothesis Hdest : BACKUP_DESTINATION config = Some m.
Hypothesis Hmount : MOUNTED_PATH config = Some m.
Hypothesis Hpath : path f = m ++ rel.
Hypothesis Hrel : rel <> [].
Hypothesis Hown : has_content_owner f = true.
Hypothesis Hlink : forall t a b, os_outcome host t (Symlink a b) <> Done.

Local Abbreviation no_copy := (fun c : OsCall => forall src dst, c <> Copy2 src dst).

Lemma self_dest_path : dest_path_of host config m f = path f.
Proof.
  unfold dest_path_of, relpath_mounted, Path.join. rewrite Hmount, Hpath.
  cbn [default]. rewrite relpath_under by exact Hrel. reflexivity.
Qed.

(** With the destination on the mounted path, the "original" of a
    duplicate is looked up, found and linked at the duplicate's own path,
    round after round: no number of frames lets the calls return. *)
Lemma self_backup_raises (depth : nat) :
  (forall w1 r1,
      get_file_by_path (path f) (db w1) = Some r1 ->
      (exists e, (copy_file host config depth f (path f) (path f) (Some m) w1).1 = Raise e) /\
      trace_extends no_copy w1
        (copy_file host config depth f (path f) (path f) (Some m) w1).2) /\
  (forall w1 r1,
      get_file_by_path (path f) (db w1) = Some r1 ->
      (exists e, (create_symlink host config depth f (path f) (path f) w1).1 = Raise e) /\
      trace_extends no_copy w1
        (create_symlink host config depth f (path f) (path f) w1).2).
Proof.
  induction depth as [|depth [IHcopy IHlink]].
  - split; intros w1 r1 _; (split; [exists OtherError; reflexivity|]);
      apply trace_extends_same; reflexivity.
  - split; intros w1 r1 Hrow.
    + rewrite copy_file_S.
      pose proof (os_call_db host (Makedirs (Path.dirname (path f))) w1) as Hdb.
      pose proof (os_call_extends host no_copy (Makedirs (Path.dirname (path f))) w1
                    (fun src dst => ltac:(discriminate))) as Hext.
      destruct (os_call host (Makedirs (Path.dirname (path f))) w1) as [[[]|e] w2]
        eqn:Ecall; cbn [fst snd] in Hdb, Hext.
      * rewrite (bind_ok _ _ w1 w2 tt Ecall). rewrite Hown, Hdb, Hrow.
        assert (Hodp : bind (join_destination (Some m)
                               (relpath_mounted host config (path r1)))
                         (fun odp => create_symlink host config depth f odp (path f)) w2 =
                       create_symlink host config depth f (path f) (path f) w2).
        { rewrite (get_file_by_path_path _ _ _ Hrow). unfold join_destination.
          unfold bind, ret. fold (dest_path_of host config m f).
          rewrite self_dest_path. reflexivity. }
        rewrite Hodp. rewrite <- Hdb in Hrow.
        destruct (IHlink w2 r1 Hrow) as [Hraise Hext2]. split; [exact Hraise|].
        apply (trace_extends_trans _ w1 w2); assumption.
      * rewrite (bind_raise _ _ w1 w2 e Ecall).
        split; [exists e; reflexivity|exact Hext].
    + rewrite create_symlink_S.
      pose proof (bind_os_call_db host (Makedirs (Path.dirname (path f)))
                    (fun _ => os_call host (Symlink (path f) (path f))) w1
                    (fun w' Hw' => eq_trans (os_call_db host _ w') Hw')) as Hdb.
      assert (Hext : trace_extends no_copy w1
                (bind (os_call host (Makedirs (Path.dirname (path f))))
                   (fun _ => os_call host (Symlink (path f) (path f))) w1).2).
      { apply bind_extends; [|intros _ w']; apply os_call_extends;
          intros src dst; discriminate. }
      assert (Hnot : forall w2,
                 bind (os_call host (Makedirs (Path.dirname (path f))))
                   (fun _ => os_call host (Symlink (path f) (path f))) w1 <> (Ok tt, w2)).
      { intros w2. unfold bind.
        destruct (os_call host (Makedirs (Path.dirname (path f))) w1) as [[[]|e] w'];
          [|discriminate].
        unfold os_call.
        destruct (os_outcome host (trace w') (Symlink (path f) (path f))) eqn:E;
          [exfalso; exact (Hlink _ _ _ E)|discriminate]. }
      destruct (bind (os_call host (Makedirs (Path.dirname (path f))))
                  (fun _ => os_call host (Symlink (path f) (path f))) w1)
        as [[[]|e] w2] eqn:Etry; cbn [fst snd] in Hdb, Hext;
        [exfalso; exact (Hnot w2 eq_refl)|].
      rewrite (try_except_raise _ _ w1 w2 e Etry).
      destruct e.
      * rewrite Hdest. rewrite <- Hdb in Hrow.
        destruct (IHcopy w2 r1 Hrow) as [Hraise Hext2]. split; [exact Hraise|].
        apply (trace_extends_trans _ w1 w2); assumption.
      * split; [exists OtherError; reflexivity|exact Hext].
Qed.

End SelfBackup.

(** X24.  With BACKUP_DESTINATION set to the mounted path itself, a file
    marked as a duplicate can never be backed up when os.symlink does not
    succeed (the link path is the file itself, so FileExistsError):
    copy_file and create_symlink call each other on the same path until
    the recursion limit, whatever that limit is; the entry ends as failed
    and no copy is ever attempted. *)
Theorem backup_into_mounted_path_fails_duplicates
    (host : Host) (config : Config) (m rel : Path.t) (f r0 : Row) (w : World) :
  BACKUP_DESTINATION config = Some m ->
  MOUNTED_PATH config = Some m ->
  path f = m ++ rel ->
  rel <> [] ->
  type f = file ->
  BackupManager.has_content_owner f = true ->
  DatabaseManager.get_file_by_path (path f) (db w) = Some r0 ->
  (forall t a b, os_outcome host t (Symlink a b) <> Done) ->
  exists new : list Event,
    BackupManager.backup_file host config f (Some m) w =
      (Ok tt,
       mkWorld (DatabaseManager.update_file_status (id f) failed (db w))
               (trace w ++ new)) /\
    forall src dst o, (Copy2 src dst, o) ∉ new.
Proof.
  intros Hdest Hmount Hpath Hrel Hty Hown Hrow Hlink.
  destruct (backup_file_spec host config f m w) as (res & w1 & Hm & Hrun).
  set (w0 := mkWorld (DatabaseManager.update_file_status (id f) copying (db w)) (trace w))
    in Hm.
  assert (Hrow0 : exists r1, DatabaseManager.get_file_by_path (path f) (db w0) = Some r1).
  { unfold w0. cbn [db]. rewrite get_file_by_path_update_status, Hrow.
    eexists. reflexivity. }
  destruct Hrow0 as [r1 Hrow0].
  destruct (self_backup_raises host config m rel f Hdest Hmount Hpath Hrel Hown Hlink
              (recursion_limit host)) as [Hcopy _].
  destruct (Hcopy w0 r1 Hrow0) as [[e Hraise] (new & Htrace & Hnew)].
  unfold BackupManager.materialize in Hm.
  rewrite Hty, (self_dest_path host config m rel f Hmount Hpath Hrel) in Hm.
  rewrite Hm in Hraise, Htrace. cbn [fst snd] in Hraise, Htrace. subst res.
  exists new. split.
  - rewrite Hrun, Htrace. reflexivity.
  - intros src dst o Hin. exact (Hnew _ Hin src dst eq_refl).
Qed.

Lemma backup_into_mounted_path_fails_duplicates_witness :
  exists new : list Event,
    BackupManager.backup_file Sample.host_no_symlinks Sample.config_into_mount
      Sample.duplicate_row_b (Some ["mnt"]%string) (mkWorld Sample.small_detected []) =
      (Ok tt,
       mkWorld (DatabaseManager.update_file_status (id Sample.duplicate_row_b) failed
                  Sample.small_detected)
               ([] ++ new)) /\
    forall src dst o, (Copy2 src dst, o) ∉ new.
Proof.
  apply (backup_into_mounted_path_fails_duplicates Sample.host_no_symlinks
           Sample.config_into_mount ["mnt"]%string ["y"; "b"]%string
           Sample.duplicate_row_b Sample.duplicate_row_b
           (mkWorld Sample.small_detected [])).
  - reflexivity.
  - reflexivity.
  - reflexivity.
  - discriminate.
  - reflexivity.
  - reflexivity.
  - vm_compute. reflexivity.
  - intros t a b. discriminate.
Defined.
